(** * code2md: exclusion matcher, file collector, tree renderer, anchors

    A shallow embedding of [code2md.py].  Python values are modelled as
    follows.

    - [str] is [string]; a character is a byte, so [lower], [isalnum]
      and [isspace] act on ASCII only and comparison is bytewise (which,
      on UTF-8, is comparison by code point).  On strings of ASCII
      characters they are the methods of Python; on other strings
      [str.lower()] changes more characters than [lower] does.
    - A [pathlib.Path] is the list of its components.  The paths the
      program builds are absolute POSIX paths obtained from
      [Path.resolve()], so the leading root is left implicit; a relative
      path (the result of [relative_to]) is the list of its components
      too, and [str_path] prints it.
    - [set[str]] is [gset string], [list[str]] is [list string].
    - [ValueError] raised by [Path.relative_to] is [None] in the option
      monad, whose bind is written [x ← e; k].
    - The directory below the base path is a finite tree of [entry]s,
      listed in the order the operating system enumerates them.  An
      entry is what [is_dir()] and [is_file()] make of it: a regular
      file, a directory, a symbolic link to a directory, or something
      that is neither a file nor a directory.
    - Errors of the operating system (a directory that cannot be listed,
      a file that cannot be opened) and errors of encoding the console
      or file output are not modelled. *)

From Stdlib Require Import String Ascii ZArith Lia.
From Stdlib Require Import Sorting.Sorted Sorting.Permutation.
From stdpp Require Import base option list gmap strings pretty.

Local Open Scope Z_scope.
Set Warnings "-register-all".

(** ** Python string primitives *)

Module Str.

(** [s.startswith(p)] *)
Definition startswith (s p : string) : bool := String.prefix p s.

(** [s.endswith(suf)]: some tail of [s] is [suf]. *)
Fixpoint endswith (s suf : string) : bool :=
  String.eqb s suf ||
  match s with
  | EmptyString => false
  | String _ s' => endswith s' suf
  end.

(** [sub in s]: [sub] is a prefix of some tail of [s]. *)
Fixpoint contains (sub s : string) : bool :=
  String.prefix sub s ||
  match s with
  | EmptyString => false
  | String _ s' => contains sub s'
  end.

(** [s[n:]] for [0 <= n] *)
Fixpoint slice_from (n : nat) (s : string) : string :=
  match n, s with
  | O, _ => s
  | S _, EmptyString => EmptyString
  | S n', String _ s' => slice_from n' s'
  end.

Definition lower_char (c : ascii) : ascii :=
  let n := N_of_ascii c in
  if ((65 <=? n) && (n <=? 90))%N then ascii_of_N (n + 32) else c.

(** [s.lower()] *)
Fixpoint lower (s : string) : string :=
  match s with
  | EmptyString => EmptyString
  | String c s' => String (lower_char c) (lower s')
  end.

(** [s.replace(old, new)] where [old] is a one-character string, as at
    every call site of the program. *)
Fixpoint replace (old : ascii) (new : string) (s : string) : string :=
  match s with
  | EmptyString => EmptyString
  | String c s' =>
      if Ascii.eqb c old then new +:+ replace old new s'
      else String c (replace old new s')
  end.

Fixpoint rfind_from (c : ascii) (s : string) (i last : Z) : Z :=
  match s with
  | EmptyString => last
  | String a s' => rfind_from c s' (i + 1) (if Ascii.eqb a c then i else last)
  end.

(** [s.rfind(c)]: index of the last occurrence of [c], or [-1]. *)
Definition rfind (c : ascii) (s : string) : Z := rfind_from c s 0 (-1).

(** [sep.join(l)] *)
Fixpoint join (sep : string) (l : list string) : string :=
  match l with
  | [] => EmptyString
  | [x] => x
  | x :: l' => x +:+ sep +:+ join sep l'
  end.

(** [not s], the truth value of a string negated *)
Definition is_empty (s : string) : bool :=
  match s with EmptyString => true | _ => false end.

(** [c.isspace()] on ASCII: tab to carriage return, the four separators
    [\x1c]..[\x1f], and the space. *)
Definition isspace (c : ascii) : bool :=
  let n := N_of_ascii c in
  (((9 <=? n) && (n <=? 13)) || ((28 <=? n) && (n <=? 32)))%N.

(** [c.isalnum()] on ASCII: digits and letters. *)
Definition isalnum (c : ascii) : bool :=
  let n := N_of_ascii c in
  (((48 <=? n) && (n <=? 57)) || ((65 <=? n) && (n <=? 90))
   || ((97 <=? n) && (n <=? 122)))%N.

(** [s.rstrip()] *)
Fixpoint rstrip (s : string) : string :=
  match s with
  | EmptyString => EmptyString
  | String c s' =>
      match rstrip s' with
      | EmptyString => if isspace c then EmptyString else String c EmptyString
      | t => String c t
      end
  end.

(** [s.lstrip()] *)
Fixpoint lstrip (s : string) : string :=
  match s with
  | EmptyString => EmptyString
  | String c s' => if isspace c then lstrip s' else s
  end.

(** [s.strip()] *)
Definition strip (s : string) : string := rstrip (lstrip s).

(** [s.split(sep)] for a one-character separator; the result is never
    empty. *)
Fixpoint split (sep : ascii) (s : string) : list string :=
  match s with
  | EmptyString => [EmptyString]
  | String c s' =>
      if Ascii.eqb c sep then EmptyString :: split sep s'
      else match split sep s' with
           | [] => [String c EmptyString]
           | h :: t => String c h :: t
           end
  end.

(** [s.isascii()] *)
Fixpoint isascii (s : string) : bool :=
  match s with
  | EmptyString => true
  | String c s' => (N_of_ascii c <? 128)%N && isascii s'
  end.

(** The line feed, ["\n"]. *)
Definition LF : string := String "010" EmptyString.

End Str.

(** ** pathlib *)

Abbreviation Path := (list string).

Module Pathlib.

(** [p / c] *)
Definition joinpath (p : Path) (c : string) : Path := p ++ [c].

(** [p.name]: the final component, [''] for the root. *)
Definition name (p : Path) : string := List.last p EmptyString.

(** [p.parent]; the parent of the root is the root. *)
Definition parent (p : Path) : Path := removelast p.

(** [p.relative_to(base)]; [None] stands for [ValueError]. *)
Fixpoint relative_to (p base : Path) {struct base} : option Path :=
  match base with
  | [] => Some p
  | b :: base' =>
      match p with
      | [] => None
      | x :: p' => if String.eqb x b then relative_to p' base' else None
      end
  end.

(** [str(r)] for a relative path [r]; the empty relative path prints
    as ["."]. *)
Definition str_path (r : Path) : string :=
  match r with
  | [] => "."
  | _ => Str.join "/" r
  end.

(** [p.suffix] *)
Definition suffix (p : Path) : string :=
  let nm := name p in
  let i := Str.rfind "."%char nm in
  if (0 <? i) && (i <? Z.of_nat (String.length nm) - 1)
  then Str.slice_from (Z.to_nat i) nm
  else EmptyString.

End Pathlib.

Import Pathlib.

(** ** Exclusion matcher *)

(** The body of the [for exclude in excludes] loop of [should_exclude],
    with its three early [return True]s. *)
Fixpoint exclude_loop (path_parts : list string) (path_name : string)
    (rel_path : Path) (excludes : list string) : bool :=
  match excludes with
  | [] => false
  | exclude :: rest =>
      if Str.startswith exclude "*" then
        if Str.endswith path_name (Str.slice_from 1 exclude) then true
        else exclude_loop path_parts path_name rel_path rest
      else if bool_decide (exclude ∈ path_parts) || String.eqb path_name exclude
      then true
      else if Str.contains exclude (str_path rel_path) then true
      else exclude_loop path_parts path_name rel_path rest
  end.

Definition should_exclude (path : Path) (excludes : list string)
    (base_path : Path) : option bool :=
  rel_path ← relative_to path base_path;
  let path_parts := rel_path in
  let path_name := name path in
  Some (exclude_loop path_parts path_name rel_path excludes).


(** The built-in exclusion patterns. *)
Definition DEFAULT_EXCLUDES : list string :=
  [ "node_modules"; "vendor"; "packages"; ".pub-cache";
    "__pycache__"; ".pytest_cache"; ".mypy_cache"; ".ruff_cache";
    "venv"; ".venv"; "env"; ".env"; "*.egg-info";
    "dist"; "build"; "out"; "target"; "bin"; "obj";
    ".idea"; ".vscode"; ".vs"; "*.swp"; "*.swo";
    ".git"; ".svn"; ".hg";
    ".DS_Store"; "Thumbs.db";
    "*.log"; "logs"; "tmp"; "temp"; ".tmp";
    "coverage"; ".coverage"; "htmlcov"; ".tox"; ".nox" ].

(** ** The directory tree read by the traversals *)

(** A directory entry, as [is_dir()], [is_file()] and [is_symlink()]
    tell entries apart; the first two follow symbolic links.
    - [File]: a regular file, or a symbolic link to one.
    - [Dir]: a directory, with its listing.
    - [Link]: a symbolic link to a directory, with the listing of the
      directory it points to.
    - [Other]: anything else, such as a FIFO, a socket, a device or a
      symbolic link whose target does not exist.
    Listings are in the order in which [os.scandir] enumerates them. *)
Inductive entry : Type :=
| File (filename : string)
| Dir (dirname : string) (listing : list entry)
| Link (linkname : string) (listing : list entry)
| Other (othername : string).

Definition entry_name (e : entry) : string :=
  match e with File n | Dir n _ | Link n _ | Other n => n end.

(** [p.is_dir()] *)
Definition is_dir (e : entry) : bool :=
  match e with Dir _ _ | Link _ _ => true | File _ | Other _ => false end.

(** [p.is_file()] *)
Definition is_file (e : entry) : bool :=
  match e with File _ => true | Dir _ _ | Link _ _ | Other _ => false end.

(** ** Stable sorting by key

    [list.sort(key=...)] and [sorted(..., key=...)] compute the key of
    every element once and sort the decorated list stably; every stable
    sort returns the same list, written here by insertion. *)

Section Sort.
Context {K A : Type} (le : K → K → bool).

Fixpoint insert_by (x : K * A) (l : list (K * A)) : list (K * A) :=
  match l with
  | [] => [x]
  | y :: l' => if le x.1 y.1 then x :: y :: l' else y :: insert_by x l'
  end.

Fixpoint sort_by (l : list (K * A)) : list (K * A) :=
  match l with
  | [] => []
  | x :: l' => insert_by x (sort_by l')
  end.

End Sort.

(** ** File collector *)

Section Collector.
Context (base_path : Path) (extensions : gset string) (excludes : list string).

(** What the walk below a directory appends to [files], given the path of
    that directory. *)
Definition walker : Type := Path → option (list Path).

(** [dirs[:] = [d for d in dirs if not should_exclude(root_path / d, ...)]] *)
Fixpoint prune_dirs (root_path : Path) (dirs : list (string * walker))
    : option (list (string * walker)) :=
  match dirs with
  | [] => Some []
  | d :: rest =>
      x ← should_exclude (joinpath root_path d.1) excludes base_path;
      rest' ← prune_dirs root_path rest;
      Some (if x : bool then rest' else d :: rest')
  end.

(** [for filename in filenames: ...] *)
Fixpoint scan_files (root_path : Path) (filenames : list string)
    : option (list Path) :=
  match filenames with
  | [] => Some []
  | filename :: rest =>
      let filepath := joinpath root_path filename in
      x ← should_exclude filepath excludes base_path;
      if x : bool then scan_files root_path rest
      else if bool_decide (Str.lower (suffix filepath) ∈ extensions)
      then files ← scan_files root_path rest; Some (filepath :: files)
      else scan_files root_path rest
  end.

(** One iteration of [for root, dirs, filenames in os.walk(base_path)],
    followed by the iterations for the directories left in [dirs], which
    [os.walk] visits next, in order and depth first. *)
Definition walk_step (root_path : Path) (items : list (entry * walker))
    : option (list Path) :=
  let dirs :=
    (λ it : entry * walker, (entry_name it.1, it.2))
      <$> filter (λ it : entry * walker, is_dir it.1 = true) items in
  let filenames :=
    (λ it : entry * walker, entry_name it.1)
      <$> filter (λ it : entry * walker, is_dir it.1 = false) items in
  dirs ← prune_dirs root_path dirs;
  files ← scan_files root_path filenames;
  below ← mapM (λ d : string * walker, d.2 (joinpath root_path d.1)) dirs;
  Some (files ++ concat below).

(** The recursive descent of [os.walk]: the walk below every entry of a
    listing is tabulated next to the entry, so that pruning selects among
    them.  [os.walk] is called without [followlinks], so it lists a
    symbolic link to a directory among [dirs] but does not walk into
    it. *)
Fixpoint walk (e : entry) : walker :=
  match e with
  | Dir _ listing => λ root_path,
      walk_step root_path ((λ c, (c, walk c)) <$> listing)
  | File _ | Link _ _ | Other _ => λ _, Some []
  end.

(** [lambda p: str(p.relative_to(base_path)).lower()] *)
Definition sort_key (p : Path) : option string :=
  rel ← relative_to p base_path; Some (Str.lower (str_path rel)).

(** [collect_files(base_path, extensions, excludes)], where [listing] is
    the content of the directory [base_path]. *)
Definition collect_files (listing : list entry) : option (list Path) :=
  files ← walk_step base_path ((λ c, (c, walk c)) <$> listing);
  keyed ← mapM (λ p, k ← sort_key p; Some (k, p)) files;
  Some ((sort_by String.leb keyed).*2).

End Collector.

(** ** Tree renderer *)

(** A line of the rendering together with the path it displays and
    whether the line is a leaf, written by the [else] branch of
    [if item.is_dir()].  Only [line] is part of the program's output;
    the other two fields record where the line comes from. *)
Record node : Type :=
  { line : string; node_path : Path; node_is_file : bool }.

(** [item.rglob("*")]: every directory below [item], [item] first, yields
    its listing.  The expansion of [**] descends into directories but
    not into symbolic links to directories; [item] itself is listed
    whether it is a link or not.  Each path comes with its
    [is_file()]. *)
Fixpoint rglob (item : Path) (e : entry) : list (Path * bool) :=
  match e with
  | File _ | Other _ => []
  | Dir _ listing | Link _ listing =>
      ((λ c, (joinpath item (entry_name c), is_file c)) <$> listing)
      ++ concat ((λ c, match c with
                       | Dir _ _ => rglob (joinpath item (entry_name c)) c
                       | File _ | Link _ _ | Other _ => []
                       end) <$> listing)
  end.

(** Order of the key [(not p.is_dir(), p.name.lower())]: tuples compare
    lexicographically and [False < True]. *)
Definition tree_key_le (k1 k2 : bool * string) : bool :=
  if Bool.eqb k1.1 k2.1 then String.leb k1.2 k2.2 else negb k1.1.

Section Renderer.
Context (extensions : gset string) (excludes : list string).

(** [generate_tree(item, extensions, excludes, prefix)] for a directory
    [item], as a function of its path and of [prefix]. *)
Definition renderer : Type := Path → string → option (list node).

(** An element of [base_path.iterdir()]: its path, the entry found there
    and the rendering of the tree below it. *)
Record item : Type :=
  { item_path : Path; item_entry : entry; item_tree : renderer }.

(** [any(f.suffix.lower() in extensions for f in item.rglob("*")
         if f.is_file() and not should_exclude(f, excludes, base))] *)
Fixpoint any_relevant (base : Path) (found : list (Path * bool))
    : option bool :=
  match found with
  | [] => Some false
  | (f, f_is_file) :: rest =>
      if f_is_file : bool then
        x ← should_exclude f excludes base;
        if x : bool then any_relevant base rest
        else if bool_decide (Str.lower (suffix f) ∈ extensions) then Some true
        else any_relevant base rest
      else any_relevant base rest
  end.

(** The filtering loop [for item in items: ...] *)
Fixpoint filter_items (base : Path) (items : list item) : option (list item) :=
  match items with
  | [] => Some []
  | it :: rest =>
      x ← should_exclude (item_path it) excludes base;
      if x : bool then filter_items base rest
      else if is_file (item_entry it)
              && negb (bool_decide (Str.lower (suffix (item_path it)) ∈ extensions))
      then filter_items base rest
      else filtered ← filter_items base rest; Some (it :: filtered)
  end.

(** The rendering loop [for i, item in enumerate(filtered_items): ...],
    from index [i] on; [len] is [len(filtered_items)]. *)
Fixpoint render_items (base : Path) (prefix : string) (len : nat) (i : nat)
    (items : list item) : option (list node) :=
  match items with
  | [] => Some []
  | it :: rest =>
      let is_last := Z.of_nat i =? Z.of_nat len - 1 in
      let connector := if is_last then "└── " else "├── " in
      if is_dir (item_entry it) then
        has_relevant ← any_relevant base (rglob (item_path it) (item_entry it));
        if negb has_relevant then render_items base prefix len (S i) rest
        else
          let extension := if is_last then "    " else "│   " in
          below ← item_tree it (item_path it) (prefix +:+ extension);
          lines ← render_items base prefix len (S i) rest;
          Some ({| line := prefix +:+ connector +:+ name (item_path it) +:+ "/";
                   node_path := item_path it; node_is_file := false |}
                :: below ++ lines)
      else
        lines ← render_items base prefix len (S i) rest;
        Some ({| line := prefix +:+ connector +:+ name (item_path it);
                 node_path := item_path it; node_is_file := true |}
              :: lines)
  end.

(** The base handed to [should_exclude]:
    [base_path.parent if prefix else base_path]. *)
Definition exclusion_base (base_path : Path) (prefix : string) : Path :=
  if negb (Str.is_empty prefix) then parent base_path else base_path.

(** The body of [generate_tree], given [base_path.iterdir()]. *)
Definition generate_tree_body (base_path : Path) (prefix : string)
    (iterdir : list item) : option (list node) :=
  let items :=
    (sort_by tree_key_le
       ((λ p, ((negb (is_dir (item_entry p)), Str.lower (name (item_path p))), p))
          <$> iterdir)).*2 in
  filtered_items ← filter_items (exclusion_base base_path prefix) items;
  render_items (exclusion_base base_path prefix) prefix
    (length filtered_items) 0 filtered_items.

(** The recursion of [generate_tree]: the rendering below every entry of
    a listing is tabulated next to the entry, so that sorting and
    filtering select among them. *)
Fixpoint tree (e : entry) : renderer :=
  match e with
  | File _ | Other _ => λ _ _, Some []
  | Dir _ listing | Link _ listing => λ base_path prefix,
      generate_tree_body base_path prefix
        ((λ c, {| item_path := joinpath base_path (entry_name c);
                  item_entry := c; item_tree := tree c |}) <$> listing)
  end.

(** [generate_tree(base_path, extensions, excludes, prefix)] with the
    provenance of every line, where [listing] is the content of the
    directory [base_path]. *)
Definition generate_tree_nodes (base_path : Path) (listing : list entry)
    (prefix : string) : option (list node) :=
  generate_tree_body base_path prefix
    ((λ c, {| item_path := joinpath base_path (entry_name c);
              item_entry := c; item_tree := tree c |}) <$> listing).

(** [generate_tree(base_path, extensions, excludes, prefix)] *)
Definition generate_tree (base_path : Path) (listing : list entry)
    (prefix : string) : option (list string) :=
  nodes ← generate_tree_nodes base_path listing prefix;
  Some (line <$> (nodes : list node)).

End Renderer.

(** The paths displayed as leaves of a rendering. *)
Definition tree_files (nodes : list node) : list Path :=
  node_path <$> filter (λ n, node_is_file n = true) nodes.

(** The directory paths displayed in a rendering. *)
Definition tree_dirs (nodes : list node) : list Path :=
  node_path <$> filter (λ n, node_is_file n = false) nodes.

(** ** Document composer: table of contents *)

(** [str(rel_path).replace("/", "").replace("\\", "").replace(".", "")
       .replace("_", "-").lower()] *)
Definition anchor (rel_path : Path) : string :=
  Str.lower
    (Str.replace "_" "-"
       (Str.replace "." ""
          (Str.replace "\" ""
             (Str.replace "/" "" (str_path rel_path))))).

(** The body of the loop [for filepath in files] that fills the table of
    contents. *)
Definition toc_entry (base_path filepath : Path) : option string :=
  rel_path ← relative_to filepath base_path;
  Some ("   - [`" +:+ str_path rel_path +:+ "`](#" +:+ anchor rel_path +:+ ")").

Definition toc_entries (base_path : Path) (files : list Path)
    : option (list string) :=
  mapM (toc_entry base_path) files.

(** ** Syntax tags *)

Definition SYNTAX_MAP : gmap string string :=
  list_to_map
    [ (".py", "python"); (".pyi", "python"); (".pyw", "python");
      (".js", "javascript"); (".mjs", "javascript"); (".cjs", "javascript");
      (".ts", "typescript"); (".jsx", "jsx"); (".tsx", "tsx"); (".vue", "vue");
      (".html", "html"); (".htm", "html"); (".css", "css"); (".scss", "scss");
      (".sass", "sass"); (".less", "less"); (".json", "json");
      (".yaml", "yaml"); (".yml", "yaml"); (".toml", "toml"); (".xml", "xml");
      (".md", "markdown"); (".rst", "rst"); (".php", "php"); (".phtml", "php");
      (".c", "c"); (".h", "c"); (".cpp", "cpp"); (".hpp", "cpp");
      (".ino", "cpp"); (".rs", "rust"); (".go", "go"); (".dart", "dart");
      (".java", "java"); (".kt", "kotlin"); (".cs", "csharp"); (".rb", "ruby");
      (".sh", "bash"); (".bash", "bash"); (".zsh", "zsh"); (".fish", "fish");
      (".ps1", "powershell"); (".sql", "sql"); (".graphql", "graphql");
      (".dockerfile", "dockerfile"); (".ini", "ini"); (".cfg", "ini");
      (".conf", "ini"); (".env", "dotenv"); (".gitignore", "gitignore") ].

Definition get_syntax_for_file (filepath : Path) : string :=
  let suffix := Str.lower (suffix filepath) in
  let name := Str.lower (name filepath) in
  if String.eqb name "dockerfile" then "dockerfile"
  else if String.eqb name "makefile" then "makefile"
  else if Str.startswith name ".env" then "dotenv"
  else if String.eqb name ".gitignore" then "gitignore"
  else default "" (SYNTAX_MAP !! suffix).

(** ** Command line: additional extensions *)

(** The loop [for ext in args.extensions] of [main], started from the
    extensions of the selected project types. *)
Fixpoint add_extensions (extensions : gset string) (args_extensions : list string)
    : gset string :=
  match args_extensions with
  | [] => extensions
  | ext :: rest =>
      let ext := if negb (Str.startswith ext ".") then "." +:+ ext else ext in
      add_extensions (extensions ∪ {[ Str.lower ext ]}) rest
  end.

(** ** Reading a file *)

(** What [filepath.read_text(encoding=...)] does for one file and one
    encoding: it returns the decoded text or raises
    [UnicodeDecodeError].  Other errors of the operating system are not
    modelled. *)
Inductive read_result : Type :=
| Decoded (text : string)
| UnicodeDecodeError.

(** The loop [for encoding in encodings] of [read_file_content]. *)
Fixpoint read_loop (read_text : string → read_result) (encodings : list string)
    : string :=
  match encodings with
  | [] => "[Fehler: Datei konnte nicht gelesen werden - Encoding-Problem]"
  | encoding :: rest =>
      match read_text encoding with
      | Decoded text => text
      | UnicodeDecodeError => read_loop read_text rest
      end
  end.

(** [read_file_content(filepath)], where [read_text] is
    [filepath.read_text]. *)
Definition read_file_content (read_text : string → read_result) : string :=
  read_loop read_text ["utf-8"; "latin-1"; "cp1252"].

(** ** Document composer *)

(** [str(p)] for an absolute path [p]. *)
Definition str_abs (p : Path) : string := "/" +:+ Str.join "/" p.

Section Composer.
(** [now] is [datetime.now().strftime('%Y-%m-%d %H:%M:%S')]; [read_text]
    is [Path.read_text]; [listing] is the content of the directory
    [base_path]. *)
Context (now : string) (read_text : Path → string → read_result).

(** The body of the loop [for filepath in files] that writes the file
    sections. *)
Definition file_section (base_path filepath : Path) : option (list string) :=
  rel_path ← relative_to filepath base_path;
  let syntax := get_syntax_for_file filepath in
  let content := read_file_content (read_text filepath) in
  Some [ "### `" +:+ str_path rel_path +:+ "`";
         "";
         "```" +:+ syntax;
         Str.rstrip content;
         "```";
         "" ].

(** The list [lines] at the end of [generate_markdown]. *)
Definition generate_markdown_lines (base_path : Path) (files : list Path)
    (extensions : gset string) (excludes : list string) (project_name : string)
    (listing : list entry) : option (list string) :=
  let header :=
    [ "# " +:+ project_name;
      "";
      "> Generiert am " +:+ now;
      "> Basisverzeichnis: `" +:+ str_abs base_path +:+ "`";
      "> Anzahl Dateien: " +:+ pretty (length files);
      "";
      "## Inhaltsverzeichnis";
      "";
      "1. [Ordnerstruktur](#ordnerstruktur)";
      "2. [Dateien](#dateien)" ] in
  toc ← toc_entries base_path files;
  tree ← generate_tree extensions excludes base_path listing "";
  sections ← mapM (file_section base_path) files;
  Some (header ++ toc ++ [""]
        ++ ["---"; ""; "## Ordnerstruktur"; ""; "```"; project_name +:+ "/"]
        ++ tree ++ ["```"; ""]
        ++ ["---"; ""; "## Dateien"; ""]
        ++ concat sections).

(** [generate_markdown(base_path, files, extensions, excludes,
    project_name)] *)
Definition generate_markdown (base_path : Path) (files : list Path)
    (extensions : gset string) (excludes : list string) (project_name : string)
    (listing : list entry) : option string :=
  lines ← generate_markdown_lines base_path files extensions excludes
             project_name listing;
  Some (Str.join Str.LF lines).

End Composer.

(** ** Command line *)

Record project_type : Type :=
  { pt_extensions : list string; pt_syntax : string; pt_description : string }.

Definition PROJECT_TYPES : gmap string project_type :=
  list_to_map
    [ ("python", {| pt_extensions := [".py"; ".pyi"; ".pyw"];
                    pt_syntax := "python"; pt_description := "Python-Projekte" |});
      ("arduino", {| pt_extensions := [".ino"; ".cpp"; ".c"; ".h"; ".hpp"];
                     pt_syntax := "cpp"; pt_description := "Arduino/C++ Projekte" |});
      ("vue", {| pt_extensions := [".vue"; ".js"; ".ts"; ".jsx"; ".tsx"; ".json";
                                   ".css"; ".scss"; ".sass"; ".less"];
                 pt_syntax := "vue"; pt_description := "Vue.js Projekte" |});
      ("react", {| pt_extensions := [".jsx"; ".tsx"; ".js"; ".ts"; ".json"; ".css";
                                     ".scss"; ".sass"; ".less"];
                   pt_syntax := "jsx"; pt_description := "React.js Projekte" |});
      ("web", {| pt_extensions := [".html"; ".htm"; ".css"; ".scss"; ".sass";
                                   ".less"; ".js"; ".ts"];
                 pt_syntax := "html"; pt_description := "Web-Projekte (HTML/CSS/JS)" |});
      ("php", {| pt_extensions := [".php"; ".phtml"; ".php3"; ".php4"; ".php5"; ".phps"];
                 pt_syntax := "php"; pt_description := "PHP-Projekte" |});
      ("node", {| pt_extensions := [".js"; ".ts"; ".mjs"; ".cjs"; ".json"];
                  pt_syntax := "javascript"; pt_description := "Node.js Projekte" |});
      ("flutter", {| pt_extensions := [".dart"; ".yaml"; ".json"];
                     pt_syntax := "dart"; pt_description := "Flutter/Dart Projekte" |});
      ("rust", {| pt_extensions := [".rs"; ".toml"];
                  pt_syntax := "rust"; pt_description := "Rust Projekte" |});
      ("go", {| pt_extensions := [".go"; ".mod"; ".sum"];
                pt_syntax := "go"; pt_description := "Go Projekte" |});
      ("java", {| pt_extensions := [".java"; ".xml"; ".gradle"; ".properties"];
                  pt_syntax := "java"; pt_description := "Java Projekte" |});
      ("csharp", {| pt_extensions := [".cs"; ".csproj"; ".sln"; ".xaml"];
                    pt_syntax := "csharp"; pt_description := "C# Projekte" |});
      ("config", {| pt_extensions := [".json"; ".yaml"; ".yml"; ".toml"; ".ini";
                                      ".cfg"; ".conf"; ".env"];
                    pt_syntax := "yaml"; pt_description := "Konfigurationsdateien" |});
      ("docs", {| pt_extensions := [".md"; ".rst"; ".txt"; ".adoc"];
                  pt_syntax := "markdown"; pt_description := "Dokumentationsdateien" |}) ].

(** The loop [for type_name in args.types.split(",")] of [main]; [None]
    stands for [sys.exit(1)] on an unknown project type. *)
Fixpoint add_types (extensions : gset string) (type_names : list string)
    : option (gset string) :=
  match type_names with
  | [] => Some extensions
  | type_name :: rest =>
      let type_name := Str.lower (Str.strip type_name) in
      match PROJECT_TYPES !! type_name with
      | None => None
      | Some config => add_types (extensions ∪ list_to_set (pt_extensions config)) rest
      end
  end.

(** [safe_name]: every character that is neither alphanumeric nor one of
    [-_] becomes [_]. *)
Fixpoint safe_name (project_name : string) : string :=
  match project_name with
  | EmptyString => EmptyString
  | String c s =>
      String (if Str.isalnum c || Ascii.eqb c "-" || Ascii.eqb c "_" then c else "_"%char)
             (safe_name s)
  end.

(** [base_path / f"{safe_name}_code.md"] *)
Definition default_output_path (base_path : Path) (project_name : string) : Path :=
  joinpath base_path (safe_name project_name +:+ "_code.md").

(** The parsed command line.  [args_directory] is [args.directory]
    after [Path(...).resolve()]. *)
Record Args : Type :=
  { args_directory : Path;
    args_types : option string;
    args_extensions : list string;
    args_excludes : list string;
    args_output : option string;
    args_name : option string;
    args_no_tree : bool;
    args_list_types : bool;
    args_no_default_excludes : bool;
    args_verbose : bool }.

(** What is found at the resolved directory. *)
Inductive stat : Type :=
| Missing
| NotADirectory
| Directory (listing : list entry).

(** How a run of [main] ends: with [sys.exit(code)]; with the document
    written by [write_text] to [args.output] (left) or to the default
    path (right), after the lines [listed] were printed because of
    [--verbose]; or with a [ValueError] of [Path.relative_to] that
    nothing catches.  Of the console output only the file list printed
    with [--verbose] is modelled: it is the one [print] whose argument
    calls [relative_to]. *)
Inductive outcome : Type :=
| Exit (code : Z)
| Written (output_path : string + Path) (markdown : string) (listed : list string)
| Raised.

(** [for f in files: print(f"  - {f.relative_to(base_path)}")] *)
Definition verbose_listing (base_path : Path) (files : list Path)
    : option (list string) :=
  mapM (λ f, rel ← relative_to f base_path; Some ("  - " +:+ str_path rel)) files.

(** The truth value of an optional string argument. *)
Definition given (arg : option string) : option string :=
  match arg with
  | Some s => if Str.is_empty s then None else Some s
  | None => None
  end.

(** [# Extensions sammeln]: the extensions of the selected project
    types, then the additional ones; [None] stands for [sys.exit(1)]. *)
Definition resolve_extensions (args : Args) : option (gset string) :=
  extensions ←
    match given (args_types args) with
    | Some types => add_types ∅ (Str.split "," types)
    | None => Some ∅
    end;
  Some (add_extensions extensions (args_extensions args)).

(** [# Excludes] *)
Definition resolve_excludes (args : Args) : list string :=
  (if args_no_default_excludes args then [] else DEFAULT_EXCLUDES)
  ++ args_excludes args.

(** [# Projektname] *)
Definition resolve_project_name (args : Args) : string :=
  default (name (args_directory args)) (given (args_name args)).

(** [# Ausgabedatei] *)
Definition resolve_output_path (args : Args) : string + Path :=
  match given (args_output args) with
  | Some output => inl output
  | None => inr (default_output_path (args_directory args) (resolve_project_name args))
  end.

Section Main.
Context (now : string) (read_text : Path → string → read_result).

(** [main()], given the parsed command line and what is found at the
    resolved directory.  The steps are those of the source, in its
    order: [--list-types]; the validation, where [parser.error] exits
    with status 2; the two checks of the directory; extensions,
    excludes, project name and output path; [collect_files]; the list
    printed with [--verbose]; [generate_markdown]; [write_text].  The
    other [print] calls and the size statistic computed after the
    document is written are left out. *)
Definition main (args : Args) (found : stat) : outcome :=
  if args_list_types args then Exit 0
  else if negb (bool_decide (is_Some (given (args_types args))))
          && bool_decide (args_extensions args = [])
  then Exit 2
  else
    let base_path := args_directory args in
    match found with
    | Missing => Exit 1
    | NotADirectory => Exit 1
    | Directory listing =>
        match resolve_extensions args with
        | None => Exit 1
        | Some extensions =>
            let excludes := resolve_excludes args in
            let project_name := resolve_project_name args in
            let output_path := resolve_output_path args in
            match collect_files base_path extensions excludes listing with
            | None => Raised
            | Some [] => Exit 1
            | Some files =>
                match (if args_verbose args then verbose_listing base_path files
                       else Some []) with
                | None => Raised
                | Some listed =>
                    match generate_markdown now read_text base_path files extensions
                            excludes project_name listing with
                    | None => Raised
                    | Some markdown => Written output_path markdown listed
                    end
                end
            end
        end
    end.

End Main.

(** * Properties *)

(** ** Strings and paths *)

Lemma endswith_empty (s : string) : Str.endswith s "" = true.
Proof. induction s as [|c s IH]; [reflexivity|]. simpl. exact IH. Qed.

Lemma contains_empty (s : string) : Str.contains "" s = true.
Proof. destruct s; reflexivity. Qed.

Lemma startswith_star (suf : string) : Str.startswith ("*" +:+ suf) "*" = true.
Proof. unfold Str.startswith. simpl. destruct suf; reflexivity. Qed.

Lemma relative_to_app (base rel : Path) : relative_to (base ++ rel) base = Some rel.
Proof.
  induction base as [|b base IH]; [reflexivity|].
  simpl. rewrite String.eqb_refl. exact IH.
Qed.

Lemma name_joinpath (p : Path) (c : string) : name (joinpath p c) = c.
Proof. unfold name, joinpath. apply last_last. Qed.

(** ** Exclusion matcher *)

(** The three-kind dispatch as the specification words it: does one
    pattern match a path with the given relative components, final name
    and relative path string? *)
Definition pattern_matches (path_parts : list string) (path_name rel_str : string)
    (pattern : string) : bool :=
  if Str.startswith pattern "*"
  then Str.endswith path_name (Str.slice_from 1 pattern)
  else bool_decide (pattern ∈ path_parts) || String.eqb path_name pattern
       || Str.contains pattern rel_str.

Lemma exclude_loop_existsb (parts : list string) (nm : string) (rel : Path)
    (excludes : list string) :
  exclude_loop parts nm rel excludes
  = existsb (pattern_matches parts nm (str_path rel)) excludes.
Proof.
  induction excludes as [|pattern rest IH]; [reflexivity|].
  simpl. unfold pattern_matches at 1.
  destruct (Str.startswith pattern "*").
  - destruct (Str.endswith nm _); [reflexivity | exact IH].
  - destruct (bool_decide _ || String.eqb nm pattern); [reflexivity|].
    destruct (Str.contains pattern _); [reflexivity | exact IH].
Qed.

Lemma should_exclude_under (base rel : Path) (excludes : list string) :
  should_exclude (base ++ rel) excludes base
  = Some (existsb (pattern_matches rel (name (base ++ rel)) (str_path rel)) excludes).
Proof.
  unfold should_exclude. rewrite relative_to_app. simpl.
  by rewrite exclude_loop_existsb.
Qed.

Lemma existsb_Permutation {A} (f : A → bool) (l l' : list A) :
  l ≡ₚ l' → existsb f l = existsb f l'.
Proof.
  induction 1 as [|x l l' _ IH|x y l|l l' l'' _ IH1 _ IH2]; simpl.
  - reflexivity.
  - by rewrite IH.
  - by destruct (f x), (f y).
  - congruence.
Qed.

(** C4: [should_exclude] returns true exactly when some pattern of the
    list matches the path under the three-kind dispatch, and reordering
    the pattern list does not change what it returns. *)
Theorem should_exclude_disjunction_any_order
    (base rel : Path) (excludes excludes' : list string) :
  excludes ≡ₚ excludes' →
  should_exclude (base ++ rel) excludes base
  = Some (existsb (pattern_matches rel (name (base ++ rel)) (str_path rel)) excludes)
  ∧ (should_exclude (base ++ rel) excludes base = Some true
     ↔ ∃ pattern, pattern ∈ excludes
         ∧ pattern_matches rel (name (base ++ rel)) (str_path rel) pattern = true)
  ∧ should_exclude (base ++ rel) excludes' base
    = should_exclude (base ++ rel) excludes base.
Proof.
  intros Hperm. rewrite !should_exclude_under. split_and!.
  - reflexivity.
  - split.
    + intros [= H]. apply existsb_exists in H as (pattern & Hin & Hm).
      exists pattern. by rewrite list_elem_of_In.
    + intros (pattern & Hin & Hm). f_equal. apply existsb_exists.
      exists pattern. by rewrite <- list_elem_of_In.
  - f_equal. symmetry. by apply existsb_Permutation.
Qed.

Lemma should_exclude_disjunction_any_order_witness :
  ["build"; "*.log"] ≡ₚ ["*.log"; "build"]
  ∧ should_exclude (["home"; "proj"] ++ ["src"; "app.log"]) ["*.log"; "build"] ["home"; "proj"]
    = should_exclude (["home"; "proj"] ++ ["src"; "app.log"]) ["build"; "*.log"] ["home"; "proj"].
Proof.
  split; [apply perm_swap|].
  apply (should_exclude_disjunction_any_order ["home"; "proj"] ["src"; "app.log"]
           ["build"; "*.log"] ["*.log"; "build"]).
  apply perm_swap.
Defined.

(** *** The base path itself *)

(** C7 as the specification states it: for the base path itself, a true
    answer can only come from a non-wildcard pattern that is a substring
    of the (empty) relative path string. *)
Definition base_excluded_only_by_substring : Prop :=
  ∀ (base : Path) (excludes : list string),
    should_exclude base excludes base = Some true →
    ∃ pattern, pattern ∈ excludes
      ∧ Str.startswith pattern "*" = false
      ∧ Str.contains pattern (str_path []) = true.

(** At the base path the final name is the name of the base directory,
    and a pattern equal to it matches. *)
Lemma base_excluded_by_its_own_name : ¬ base_excluded_only_by_substring.
Proof.
  intros H.
  destruct (H ["home"; "proj"] ["proj"]) as (pattern & Hin & _ & Hsub).
  - reflexivity.
  - apply list_elem_of_singleton in Hin as ->. discriminate Hsub.
Qed.

(** How one pattern is matched against the base path itself. *)
Definition base_pattern_matches (base_name pattern : string) : bool :=
  if Str.startswith pattern "*"
  then Str.endswith base_name (Str.slice_from 1 pattern)
  else String.eqb base_name pattern || bool_decide (pattern ∈ [""; "."]).

Lemma contains_in_dot (pattern : string) :
  Str.contains pattern "." = bool_decide (pattern ∈ [""; "."]).
Proof.
  destruct pattern as [|c [|c' pattern]].
  - reflexivity.
  - simpl. destruct (ascii_dec c ".") as [->|Hne]; [reflexivity|].
    simpl. symmetry. apply bool_decide_eq_false.
    rewrite !elem_of_cons, elem_of_nil. intros [[=]|[[=]|[]]]. done.
  - simpl. destruct (ascii_dec c "."); simpl;
      symmetry; apply bool_decide_eq_false;
      rewrite !elem_of_cons, elem_of_nil; by intros [[=]|[[=]|[]]].
Qed.

(** C7, amended: at the base path no pattern matches by path component;
    a wildcard pattern matches exactly when the name of the base
    directory ends with its suffix, and any other pattern exactly when it
    is that name or occurs in ["."]. *)
Theorem should_exclude_base_path (base : Path) (excludes : list string) :
  relative_to base base = Some []
  ∧ should_exclude base excludes base
    = Some (existsb (base_pattern_matches (name base)) excludes).
Proof.
  assert (Hrel : relative_to base base = Some []).
  { rewrite <- (app_nil_r base) at 1. apply relative_to_app. }
  split; [exact Hrel|].
  unfold should_exclude. rewrite Hrel. simpl. f_equal.
  rewrite exclude_loop_existsb.
  induction excludes as [|pattern rest IH]; [reflexivity|].
  cbn [existsb]. rewrite IH. f_equal.
  unfold pattern_matches, base_pattern_matches.
  destruct (Str.startswith pattern "*"); [reflexivity|].
  change (str_path []) with ".". rewrite contains_in_dot.
  rewrite (bool_decide_eq_false_2 (pattern ∈ [])); [reflexivity|].
  apply not_elem_of_nil.
Qed.

(** *** Wildcard patterns *)

(** C8: a pattern ["*" +:+ suf], for every [suf] including the empty
    one, excludes a path exactly when the final name of the path ends
    with [suf]; so a file whose name does not end with [suf] is not
    matched, whatever its ancestor directories are called. *)
Theorem wildcard_inspects_final_name_only
    (suf : string) (base rel ancestors : Path) (file : string) :
  should_exclude (base ++ rel) ["*" +:+ suf] base
  = Some (Str.endswith (name (base ++ rel)) suf)
  ∧ (Str.endswith file suf = false →
     should_exclude (base ++ ancestors ++ [file]) ["*" +:+ suf] base = Some false).
Proof.
  assert (Hone : ∀ r, should_exclude (base ++ r) ["*" +:+ suf] base
                      = Some (Str.endswith (name (base ++ r)) suf)).
  { intros r. rewrite should_exclude_under. simpl.
    unfold pattern_matches. rewrite startswith_star. simpl.
    by rewrite orb_false_r. }
  split; [apply Hone|].
  intros Hfile. rewrite Hone. f_equal.
  rewrite app_assoc. fold (joinpath (base ++ ancestors) file).
  by rewrite name_joinpath.
Qed.

Lemma wildcard_inspects_final_name_only_witness :
  Str.endswith "setup.py" ".egg-info" = false
  ∧ should_exclude (["home"; "proj"] ++ ["pkg.egg-info"] ++ ["setup.py"])
      ["*" +:+ ".egg-info"] ["home"; "proj"] = Some false.
Proof.
  split; [reflexivity|].
  apply (proj2 (wildcard_inspects_final_name_only ".egg-info" ["home"; "proj"]
                  ["pkg.egg-info"] ["pkg.egg-info"] "setup.py")).
  reflexivity.
Defined.

(** ** Sorting *)

Lemma string_leb_trans (a b c : string) :
  String.leb a b = true → String.leb b c = true → String.leb a c = true.
Proof.
  unfold String.leb. revert b c.
  induction a as [|x a IH]; intros [|y b] [|z c]; simpl; try done.
  unfold Ascii.compare.
  destruct (N.compare_spec (N_of_ascii x) (N_of_ascii y)) as [Hxy|Hxy|Hxy],
           (N.compare_spec (N_of_ascii y) (N_of_ascii z)) as [Hyz|Hyz|Hyz],
           (N.compare_spec (N_of_ascii x) (N_of_ascii z)) as [Hxz|Hxz|Hxz];
    try done; try lia.
  apply IH.
Qed.

Section SortFacts.
Context {K A : Type} (le : K → K → bool).
Hypothesis le_total : ∀ a b, le a b = true ∨ le b a = true.
Hypothesis le_trans : ∀ a b c, le a b = true → le b c = true → le a c = true.

Definition key_le (x y : K * A) : Prop := le x.1 y.1 = true.

Lemma insert_by_Permutation (x : K * A) (l : list (K * A)) :
  insert_by le x l ≡ₚ x :: l.
Proof using Type.
  induction l as [|y l IH]; simpl; [done|].
  destruct (le x.1 y.1); [done|].
  rewrite IH. apply perm_swap.
Qed.

Lemma sort_by_Permutation (l : list (K * A)) : sort_by le l ≡ₚ l.
Proof using Type.
  induction l as [|x l IH]; simpl; [done|].
  by rewrite insert_by_Permutation, IH.
Qed.

Lemma insert_by_sorted (x : K * A) (l : list (K * A)) :
  StronglySorted key_le l → StronglySorted key_le (insert_by le x l).
Proof using le_total le_trans.
  induction 1 as [|y l Hl IH Hy]; simpl.
  - repeat constructor.
  - destruct (le x.1 y.1) eqn:Hxy.
    + constructor; [by constructor|].
      constructor; [exact Hxy|].
      eapply Forall_impl; [exact Hy|].
      intros z Hz. unfold key_le in *. eauto.
    + constructor; [exact IH|].
      rewrite insert_by_Permutation. constructor; [|exact Hy].
      unfold key_le. destruct (le_total x.1 y.1); congruence.
Qed.

Lemma sort_by_sorted (l : list (K * A)) : StronglySorted key_le (sort_by le l).
Proof using le_total le_trans.
  induction l as [|x l IH]; simpl; [constructor|].
  by apply insert_by_sorted.
Qed.

(** Sorting looks at the keys only. *)
Lemma sort_by_fmap {B} (g : A → B) (l : list (K * A)) :
  sort_by le (prod_map id g <$> l) = prod_map id g <$> sort_by le l.
Proof using Type.
  induction l as [|x l IH]; [done|].
  rewrite fmap_cons. cbn [sort_by]. rewrite IH.
  generalize (sort_by le l) as s. clear.
  destruct x as [kx ax].
  induction s as [|[ky ay] s IH]; [done|].
  rewrite fmap_cons. cbn [insert_by prod_map fst snd id].
  destruct (le kx ky); rewrite !fmap_cons; [done|].
  f_equal. exact IH.
Qed.

End SortFacts.

(** ** File collector *)

(** Induction on directory trees: the listing of a directory satisfies
    the property entry by entry. *)
Lemma entry_ind_nested (P : entry → Prop) :
  (∀ n, P (File n)) →
  (∀ n listing, Forall P listing → P (Dir n listing)) →
  (∀ n listing, Forall P listing → P (Link n listing)) →
  (∀ n, P (Other n)) →
  ∀ e, P e.
Proof.
  intros HFile HDir HLink HOther. fix IH 1.
  intros [n|n listing|n listing|n]; [apply HFile | apply HDir | apply HLink | apply HOther];
    induction listing as [|c listing IHl]; constructor; solve [apply IH | exact IHl].
Qed.

Section CollectorFacts.
Context (base_path : Path) (extensions : gset string) (excludes : list string).

(** A file the collector keeps: it lies below the base path, the matcher
    does not exclude it, and its lower-cased suffix is an extension. *)
Definition kept (p : Path) : Prop :=
  ∃ rel, p = base_path ++ rel
    ∧ should_exclude p excludes base_path = Some false
    ∧ Str.lower (suffix p) ∈ extensions.

(** A walk that, started anywhere below the base path, raises nothing
    and appends kept files only. *)
Definition walker_ok (w : walker) : Prop :=
  ∀ rel, ∃ files, w (base_path ++ rel) = Some files ∧ Forall kept files.

Lemma joinpath_under (rel : Path) (c : string) :
  joinpath (base_path ++ rel) c = base_path ++ (rel ++ [c]).
Proof. unfold joinpath. by rewrite app_assoc. Qed.

Lemma scan_files_spec (rel : Path) (filenames : list string) :
  ∃ files,
    scan_files base_path extensions excludes (base_path ++ rel) filenames = Some files
    ∧ Forall kept files.
Proof.
  induction filenames as [|filename rest (files & Hrest & Hkept)]; simpl.
  - by exists [].
  - rewrite joinpath_under.
    destruct (should_exclude (base_path ++ rel ++ [filename]) excludes base_path)
      as [[]|] eqn:Hx; simpl.
    + eauto.
    + destruct (bool_decide _) eqn:Hext; [|eauto].
      apply bool_decide_eq_true in Hext.
      rewrite Hrest. simpl. eexists; split; [done|].
      constructor; [|done]. by exists (rel ++ [filename]).
    + by rewrite should_exclude_under in Hx.
Qed.

Lemma prune_dirs_spec (rel : Path) (dirs : list (string * walker)) :
  ∃ dirs',
    prune_dirs base_path excludes (base_path ++ rel) dirs = Some dirs'
    ∧ dirs' ⊆ dirs.
Proof.
  induction dirs as [|d rest (dirs' & Hrest & Hsub)]; simpl.
  - by exists [].
  - rewrite joinpath_under, should_exclude_under. simpl. rewrite Hrest. simpl.
    eexists; split; [done|].
    destruct (existsb _ excludes);
      [by apply list_subseteq_cons | by apply list_subseteq_skip].
Qed.

Lemma walk_below_spec (rel : Path) (dirs : list (string * walker)) :
  Forall (λ d, walker_ok d.2) dirs →
  ∃ below,
    mapM (λ d : string * walker, d.2 (joinpath (base_path ++ rel) d.1)) dirs
    = Some below
    ∧ Forall (Forall kept) below.
Proof.
  induction 1 as [|d rest Hd _ (below & Hrest & Hkept)]; simpl.
  - by exists [].
  - rewrite joinpath_under. destruct (Hd (rel ++ [d.1])) as (files & -> & Hfiles).
    simpl. rewrite Hrest. simpl. eexists; split; [done|]. by constructor.
Qed.

Lemma walk_step_spec (items : list (entry * walker)) :
  Forall (λ it, walker_ok it.2) items →
  walker_ok (λ root_path, walk_step base_path extensions excludes root_path items).
Proof.
  intros Hitems rel. unfold walk_step.
  set (dirs := (λ it : entry * walker, (entry_name it.1, it.2)) <$> filter _ items).
  assert (Hdirs : Forall (λ d : string * walker, walker_ok d.2) dirs).
  { subst dirs. rewrite Forall_fmap. apply Forall_forall.
    intros it [_ Hin]%list_elem_of_filter. simpl.
    by eapply Forall_forall in Hitems. }
  destruct (prune_dirs_spec rel dirs) as (dirs' & -> & Hsub). simpl.
  destruct (scan_files_spec rel
              ((λ it : entry * walker, entry_name it.1)
                 <$> filter (λ it : entry * walker, is_dir it.1 = false) items))
    as (files & -> & Hfiles). simpl.
  destruct (walk_below_spec rel dirs') as (below & -> & Hbelow).
  { apply Forall_forall. intros d Hd. eapply Forall_forall in Hdirs; eauto. }
  simpl. eexists; split; [done|].
  apply Forall_app; split; [done|]. by apply Forall_concat.
Qed.

Lemma walk_spec (e : entry) : walker_ok (walk base_path extensions excludes e).
Proof.
  induction e as [n|n listing IH|n listing _|n] using entry_ind_nested; simpl;
    try (intros rel; by exists []).
  apply walk_step_spec. by rewrite Forall_fmap.
Qed.

Lemma kept_relative (files : list Path) :
  Forall kept files → ∃ rels, files = (base_path ++.) <$> rels.
Proof.
  induction 1 as [|p files (rel & -> & _) _ (rels & ->)].
  - by exists [].
  - by exists (rel :: rels).
Qed.

(** The key of a relative path in the order of the collected list. *)
Definition rel_key (rel : Path) : string := Str.lower (str_path rel).

Lemma sort_key_under (rel : Path) :
  sort_key base_path (base_path ++ rel) = Some (rel_key rel).
Proof. unfold sort_key. by rewrite relative_to_app. Qed.

(** What [collect_files] returns: the kept files of the walk, by
    relative path, sorted stably on [rel_key]. *)
Lemma collect_files_spec (listing : list entry) :
  ∃ rels,
    collect_files base_path extensions excludes listing
    = Some ((base_path ++.) <$> rels)
    ∧ Forall (λ rel, kept (base_path ++ rel)) rels
    ∧ StronglySorted (λ r1 r2, String.leb (rel_key r1) (rel_key r2) = true) rels.
Proof.
  unfold collect_files.
  destruct (walk_step_spec ((λ c, (c, walk base_path extensions excludes c)) <$> listing))
    with (rel := @nil string) as (files & Hwalk & Hkept).
  { rewrite Forall_fmap. apply Forall_forall. intros c _. apply walk_spec. }
  rewrite app_nil_r in Hwalk. rewrite Hwalk. simpl.
  destruct (kept_relative files Hkept) as (rels0 & ->).
  set (decorate := λ rel : Path, (rel_key rel, rel)).
  assert (Hkeyed : mapM (λ p, k ← sort_key base_path p; Some (k, p))
                     ((base_path ++.) <$> rels0)
                   = Some (prod_map id (base_path ++.) <$> (decorate <$> rels0))).
  { apply mapM_Some. rewrite <- list_fmap_compose.
    apply Forall2_fmap, Forall_Forall2_diag, Forall_forall.
    intros rel _. simpl. by rewrite sort_key_under. }
  rewrite Hkeyed. simpl. rewrite sort_by_fmap.
  set (sorted := sort_by String.leb (decorate <$> rels0)).
  assert (Hperm : sorted ≡ₚ decorate <$> rels0) by apply sort_by_Permutation.
  assert (Hdec : Forall (λ x, x.1 = rel_key x.2 ∧ kept (base_path ++ x.2)) sorted).
  { rewrite Hperm, Forall_fmap. rewrite Forall_fmap in Hkept.
    eapply Forall_impl; [exact Hkept|]. by intros rel Hrel. }
  assert (Hsorted : StronglySorted (key_le String.leb) sorted).
  { apply sort_by_sorted; [apply String.leb_total | apply string_leb_trans]. }
  exists (sorted.*2). split_and!.
  - f_equal. rewrite <- !list_fmap_compose. by apply list_fmap_ext.
  - rewrite Forall_fmap. eapply Forall_impl; [exact Hdec|]. by intros x [_ Hx].
  - clear -Hdec Hsorted. induction Hsorted as [|x l Hl IH Hx]; simpl; [constructor|].
    apply Forall_cons in Hdec as [[Hkx _] Hdec].
    constructor; [by apply IH|].
    rewrite Forall_fmap. apply Forall_forall. intros y Hy. simpl.
    rewrite Forall_forall in Hx, Hdec.
    destruct (Hdec y Hy) as [Hky _]. rewrite <- Hkx, <- Hky. by apply Hx.
Qed.

End CollectorFacts.

(** C6: the list returned by [collect_files] is in ascending bytewise
    order of the lower-cased relative path strings, separator included;
    a file in a sub-directory is therefore placed between files of the
    directory above it. *)
Theorem collect_files_sorted_by_lowercase_relative_path :
  (∀ (base_path : Path) (extensions : gset string) (excludes : list string)
     (listing : list entry),
     ∃ rels,
       collect_files base_path extensions excludes listing
       = Some ((base_path ++.) <$> rels)
       ∧ StronglySorted
           (λ r1 r2, String.leb (Str.lower (str_path r1)) (Str.lower (str_path r2)) = true)
           rels)
  ∧ collect_files ["home"; "proj"] {[ ".py" ]} []
      [File "c.py"; Dir "b" [File "a.py"]; File "a.py"; Dir "B" [File "z.py"]]
    = Some [ ["home"; "proj"; "a.py"];
             ["home"; "proj"; "b"; "a.py"];
             ["home"; "proj"; "B"; "z.py"];
             ["home"; "proj"; "c.py"] ].
Proof.
  split; [|by vm_compute].
  intros base_path extensions excludes listing.
  destruct (collect_files_spec base_path extensions excludes listing)
    as (rels & Hfiles & _ & Hsorted).
  by exists rels.
Qed.

(** *** Patterns that match everything *)

Lemma star_or_empty_matches (parts : list string) (nm rel_str : string)
    (excludes : list string) :
  "*" ∈ excludes ∨ "" ∈ excludes →
  existsb (pattern_matches parts nm rel_str) excludes = true.
Proof.
  intros Hin. apply existsb_exists. destruct Hin as [Hin|Hin].
  - exists "*". split; [by apply list_elem_of_In|].
    unfold pattern_matches. simpl. apply endswith_empty.
  - exists "". split; [by apply list_elem_of_In|].
    unfold pattern_matches. simpl. rewrite contains_empty. apply orb_true_r.
Qed.

Lemma prune_dirs_all (base_path : Path) (excludes : list string) (rel : Path)
    (dirs : list (string * walker)) :
  "*" ∈ excludes ∨ "" ∈ excludes →
  prune_dirs base_path excludes (base_path ++ rel) dirs = Some [].
Proof.
  intros Hin. induction dirs as [|d rest IH]; [done|]. simpl.
  rewrite joinpath_under, should_exclude_under, star_or_empty_matches by done.
  simpl. by rewrite IH.
Qed.

Lemma scan_files_all (base_path : Path) (extensions : gset string)
    (excludes : list string) (rel : Path) (filenames : list string) :
  "*" ∈ excludes ∨ "" ∈ excludes →
  scan_files base_path extensions excludes (base_path ++ rel) filenames = Some [].
Proof.
  intros Hin. induction filenames as [|filename rest IH]; [done|]. simpl.
  rewrite joinpath_under, should_exclude_under, star_or_empty_matches by done.
  simpl. exact IH.
Qed.

(** C9: the patterns ["*"] and [""] match every path at or below the
    base path, and a pattern list that contains one of them makes
    [collect_files] return the empty list. *)
Theorem star_or_empty_pattern_excludes_everything
    (base_path rel : Path) (extensions : gset string) (excludes : list string)
    (listing : list entry) :
  "*" ∈ excludes ∨ "" ∈ excludes →
  should_exclude (base_path ++ rel) ["*"] base_path = Some true
  ∧ should_exclude (base_path ++ rel) [""] base_path = Some true
  ∧ should_exclude (base_path ++ rel) excludes base_path = Some true
  ∧ collect_files base_path extensions excludes listing = Some [].
Proof.
  intros Hin. rewrite !should_exclude_under. split_and!.
  - f_equal. apply star_or_empty_matches. left. apply list_elem_of_singleton. done.
  - f_equal. apply star_or_empty_matches. right. apply list_elem_of_singleton. done.
  - f_equal. by apply star_or_empty_matches.
  - unfold collect_files, walk_step.
    assert (Hp : ∀ dirs, prune_dirs base_path excludes base_path dirs = Some []).
    { intros dirs. generalize (prune_dirs_all base_path excludes [] dirs Hin).
      by rewrite app_nil_r. }
    assert (Hs : ∀ filenames,
               scan_files base_path extensions excludes base_path filenames = Some []).
    { intros fs. generalize (scan_files_all base_path extensions excludes [] fs Hin).
      by rewrite app_nil_r. }
    rewrite Hp. simpl. rewrite Hs. reflexivity.
Qed.

Lemma star_or_empty_pattern_excludes_everything_witness :
  ("*" ∈ ["node_modules"; "*"] ∨ "" ∈ ["node_modules"; "*"])
  ∧ collect_files ["home"; "proj"] {[ ".py" ]} ["node_modules"; "*"]
      [File "a.py"; Dir "src" [File "main.py"]] = Some [].
Proof.
  assert (H : "*" ∈ ["node_modules"; "*"] ∨ "" ∈ ["node_modules"; "*"]).
  { left. apply elem_of_cons. right. apply list_elem_of_singleton. reflexivity. }
  split; [exact H|].
  apply (star_or_empty_pattern_excludes_everything ["home"; "proj"] [] {[ ".py" ]}
           ["node_modules"; "*"] [File "a.py"; Dir "src" [File "main.py"]] H).
Defined.

(** *** Files without a suffix *)

Lemma startswith_dot (s : string) :
  Str.startswith s "." = true ↔ ∃ t, s = String "." t.
Proof.
  unfold Str.startswith. destruct s as [|c s]; cbn [String.prefix].
  - split; [done | by intros [t [=]]].
  - destruct (ascii_dec "." c) as [<-|Hne].
    + split; [by exists s | by destruct s].
    + split; [done | intros [t [=]]; congruence].
Qed.

Lemma suffix_of_name (p : Path) : suffix p = suffix [name p].
Proof. reflexivity. Qed.

Lemma add_extensions_dot_prefixed (extensions : gset string)
    (args_extensions : list string) :
  (∀ ext, ext ∈ extensions → Str.startswith ext "." = true) →
  ∀ ext, ext ∈ add_extensions extensions args_extensions →
         Str.startswith ext "." = true.
Proof.
  revert extensions.
  induction args_extensions as [|e rest IH]; intros extensions Hdot; [done|].
  simpl. apply IH. intros ext [Hext| ->%elem_of_singleton]%elem_of_union; [by apply Hdot|].
  destruct (Str.startswith e ".") eqn:He; cbn [negb].
  - apply startswith_dot in He as [t ->]. apply startswith_dot. by exists (Str.lower t).
  - apply startswith_dot. by exists (Str.lower e).
Qed.

(** The names for which [get_syntax_for_file] has a special case. *)
Definition special_names : list string :=
  ["Dockerfile"; "Makefile"; ".gitignore"; ".env"].

(** C10: when every extension starts with a dot, as the extensions the
    command line adds do, every file [collect_files] returns has a
    non-empty suffix; so a file named [Dockerfile], [Makefile],
    [.gitignore] or [.env] is never returned, although
    [get_syntax_for_file] has a tag for each of these names. *)
Theorem collect_files_never_returns_suffixless_file
    (base_path : Path) (extensions extensions0 : gset string)
    (args_extensions excludes : list string) (listing : list entry) :
  (∀ ext, ext ∈ extensions → Str.startswith ext "." = true) →
  (∀ ext, ext ∈ extensions0 → Str.startswith ext "." = true) →
  (∃ files,
      collect_files base_path extensions excludes listing = Some files
      ∧ ∀ f, f ∈ files → suffix f ≠ "" ∧ name f ∉ special_names)
  ∧ (∀ ext, ext ∈ add_extensions extensions0 args_extensions →
            Str.startswith ext "." = true)
  ∧ (λ n, suffix [n]) <$> special_names = [""; ""; ""; ""]
  ∧ (λ n, get_syntax_for_file [n]) <$> special_names
    = ["dockerfile"; "makefile"; "gitignore"; "dotenv"].
Proof.
  intros Hdot Hdot0. split_and!; [| by apply add_extensions_dot_prefixed | done | done].
  destruct (collect_files_spec base_path extensions excludes listing)
    as (rels & Hfiles & Hkept & _).
  eexists; split; [exact Hfiles|].
  intros f (rel & -> & Hrel)%list_elem_of_fmap.
  rewrite Forall_forall in Hkept. destruct (Hkept rel Hrel) as (_ & _ & _ & Hext).
  assert (Hsuffix : suffix (base_path ++ rel) ≠ "").
  { intros Hempty. rewrite Hempty in Hext. apply Hdot in Hext. discriminate Hext. }
  split; [exact Hsuffix|].
  intros Hname. apply Hsuffix. rewrite suffix_of_name.
  unfold special_names in Hname.
  repeat (apply elem_of_cons in Hname as [->|Hname]; [reflexivity|]).
  by apply elem_of_nil in Hname.
Qed.

Lemma collect_files_never_returns_suffixless_file_witness :
  (∀ ext, ext ∈ ({[ ".py" ]} : gset string) → Str.startswith ext "." = true)
  ∧ ∃ files,
      collect_files ["home"; "proj"] {[ ".py" ]} []
        [File "Dockerfile"; File ".env"; File "main.py"] = Some files
      ∧ ∀ f, f ∈ files → suffix f ≠ "" ∧ name f ∉ special_names.
Proof.
  assert (H : ∀ ext, ext ∈ ({[ ".py" ]} : gset string) → Str.startswith ext "." = true).
  { intros ext ->%elem_of_singleton. reflexivity. }
  split; [exact H|].
  apply (collect_files_never_returns_suffixless_file ["home"; "proj"] {[ ".py" ]}
           {[ ".py" ]} ["js"] [] [File "Dockerfile"; File ".env"; File "main.py"] H H).
Defined.

(** ** Table of contents anchors *)

(** C5 as the specification states it: separators, dots and underscores
    are removed, and the result is lower-cased. *)
Definition anchor_as_specified (rel_path : Path) : string :=
  Str.lower
    (Str.replace "_" ""
       (Str.replace "." ""
          (Str.replace "\" ""
             (Str.replace "/" "" (str_path rel_path))))).

Definition anchors_drop_underscores : Prop :=
  ∀ (base_path : Path) (extensions : gset string) (excludes : list string)
    (listing : list entry) (files : list Path) (f rel : Path),
    collect_files base_path extensions excludes listing = Some files →
    f ∈ files →
    relative_to f base_path = Some rel →
    anchor rel = anchor_as_specified rel.

(** The anchor of [a_b.py] is [a-bpy]: the underscore becomes a hyphen. *)
Lemma anchor_keeps_hyphen_for_underscore : ¬ anchors_drop_underscores.
Proof.
  intros H.
  specialize (H ["home"; "proj"] {[ ".py" ]} [] [File "a_b.py"]
                [["home"; "proj"; "a_b.py"]] ["home"; "proj"; "a_b.py"] ["a_b.py"]).
  discriminate H; [by vm_compute | by apply list_elem_of_singleton | reflexivity].
Qed.

(** What one character of the relative path string contributes to the
    anchor. *)
Definition anchor_char (c : ascii) : string :=
  if Ascii.eqb c "/" || Ascii.eqb c "\" || Ascii.eqb c "." then ""
  else if Ascii.eqb c "_" then "-"
  else String (Str.lower_char c) "".

Fixpoint anchor_chars (s : string) : string :=
  match s with
  | EmptyString => EmptyString
  | String c s' => anchor_char c +:+ anchor_chars s'
  end.

(** The line of the table of contents for a relative path. *)
Definition toc_line (rel_path : Path) : string :=
  "   - [`" +:+ str_path rel_path +:+ "`](#"
  +:+ anchor_chars (str_path rel_path) +:+ ")".

Lemma anchor_by_char (rel_path : Path) :
  anchor rel_path = anchor_chars (str_path rel_path).
Proof.
  unfold anchor. generalize (str_path rel_path) as s.
  induction s as [|c s IH]; [reflexivity|].
  cbn [Str.replace anchor_chars]. unfold anchor_char.
  destruct (Ascii.eqb_spec c "/") as [->|H1]; [exact IH|].
  cbn [Str.replace orb].
  destruct (Ascii.eqb_spec c "\") as [->|H2]; [exact IH|].
  cbn [Str.replace orb].
  destruct (Ascii.eqb_spec c ".") as [->|H3]; [exact IH|].
  cbn [Str.replace orb].
  destruct (Ascii.eqb_spec c "_") as [->|H4].
  - rewrite <- IH. reflexivity.
  - rewrite <- IH. reflexivity.
Qed.

(** C5, amended: the anchor of every collected file is its relative path
    string with ["/"], ["\"] and ["."] removed, every ["_"] replaced by
    ["-"], and the other characters lower-cased. *)
Theorem anchor_of_collected_files
    (base_path : Path) (extensions : gset string) (excludes : list string)
    (listing : list entry) :
  (∀ rel, anchor rel = anchor_chars (str_path rel))
  ∧ ∃ rels,
      collect_files base_path extensions excludes listing
      = Some ((base_path ++.) <$> rels)
      ∧ toc_entries base_path ((base_path ++.) <$> rels) = Some (toc_line <$> rels).
Proof.
  split; [apply anchor_by_char|].
  destruct (collect_files_spec base_path extensions excludes listing)
    as (rels & Hfiles & _).
  exists rels. split; [exact Hfiles|].
  unfold toc_entries. apply mapM_Some.
  apply Forall2_fmap, Forall_Forall2_diag, Forall_forall.
  intros rel _. unfold toc_entry, toc_line.
  rewrite relative_to_app. simpl. by rewrite anchor_by_char.
Qed.

(** ** Tree renderer against file collector *)

(** A project [/home/proj] with [src/app/gen.py] and [src/app/main.py]. *)
Definition proj : Path := ["home"; "proj"].

Definition proj_listing : list entry :=
  [Dir "src" [Dir "app" [File "gen.py"; File "main.py"]]].

(** The same project with a directory [src/app/generated] instead of the
    file [gen.py]. *)
Definition proj_listing_dir : list entry :=
  [Dir "src" [Dir "app" [Dir "generated" [File "api.py"]; File "main.py"]]].

(** The invariant of the specification: the collector returns exactly
    the files that the tree displays as leaves. *)
Definition collector_agrees_with_tree : Prop :=
  ∀ (base_path : Path) (extensions : gset string) (excludes : list string)
    (listing : list entry) (files : list Path) (nodes : list node),
    collect_files base_path extensions excludes listing = Some files →
    generate_tree_nodes extensions excludes base_path listing "" = Some nodes →
    ∀ p, p ∈ files ↔ p ∈ tree_files nodes.

(** C1, at [proj] with the exclude pattern [src/app/gen.py]: the
    collector drops [src/app/gen.py], the tree displays it as a leaf, so
    the invariant does not hold of the program. *)
Theorem tree_displays_file_the_collector_drops :
  collect_files proj {[ ".py" ]} ["src/app/gen.py"] proj_listing
  = Some [proj ++ ["src"; "app"; "main.py"]]
  ∧ tree_files <$> generate_tree_nodes {[ ".py" ]} ["src/app/gen.py"] proj proj_listing ""
    = Some [proj ++ ["src"; "app"; "gen.py"]; proj ++ ["src"; "app"; "main.py"]]
  ∧ generate_tree {[ ".py" ]} ["src/app/gen.py"] proj proj_listing ""
    = Some ["└── src/";
            "    └── app/";
            "        ├── gen.py";
            "        └── main.py"]
  ∧ ¬ collector_agrees_with_tree.
Proof.
  split_and!; [by vm_compute.. |].
  intros H.
  destruct (generate_tree_nodes {[ ".py" ]} ["src/app/gen.py"] proj proj_listing "")
    as [nodes|] eqn:Hnodes; [|by vm_compute in Hnodes].
  specialize (H proj {[ ".py" ]} ["src/app/gen.py"] proj_listing
                [proj ++ ["src"; "app"; "main.py"]] nodes).
  assert (Hin : proj ++ ["src"; "app"; "gen.py"] ∈ tree_files nodes).
  { vm_compute in Hnodes. injection Hnodes as <-. vm_compute. apply list_elem_of_here. }
  apply H in Hin; [| by vm_compute | exact Hnodes].
  apply list_elem_of_singleton in Hin. discriminate Hin.
Qed.

(** C2: in the first call the base of the exclusion test is the base
    path, and one level down it still is; in every recursive call, where
    [prefix] is not empty, it is the parent of the directory being
    listed.  Two levels down this is not the base path of the first
    call, and [src/app/gen.py], excluded relative to [proj], is not
    excluded relative to it. *)
Theorem tree_exclusion_base_is_parent_directory :
  (∀ (base_path : Path) (d1 d2 : string) (c : ascii) (prefix : string),
     exclusion_base base_path "" = base_path
     ∧ exclusion_base (base_path ++ [d1]) (String c prefix) = base_path
     ∧ exclusion_base (base_path ++ [d1; d2]) (String c prefix) = base_path ++ [d1])
  ∧ exclusion_base (proj ++ ["src"; "app"]) "        " = proj ++ ["src"]
  ∧ should_exclude (proj ++ ["src"; "app"; "gen.py"]) ["src/app/gen.py"] proj
    = Some true
  ∧ should_exclude (proj ++ ["src"; "app"; "gen.py"]) ["src/app/gen.py"]
      (exclusion_base (proj ++ ["src"; "app"]) "        ")
    = Some false.
Proof.
  split; [|by vm_compute].
  intros base_path d1 d2 c prefix. unfold exclusion_base, parent. simpl.
  split_and!; [done | apply removelast_last |].
  change [d1; d2] with ([d1] ++ [d2]). by rewrite app_assoc, removelast_last.
Qed.

(** A project [/home/proj] in the src layout, with the metadata
    directory that an editable install leaves behind. *)
Definition proj_listing_egg : list entry :=
  [Dir "src" [Dir "pkg.egg-info" [File "SOURCES.txt"]; File "main.py"];
   File "README.md"].

(** The extensions of the project type [docs]. *)
Definition docs_extensions : gset string := {[ ".md"; ".rst"; ".txt"; ".adoc" ]}.

(** C3, at [proj] with the exclude pattern [src/app/generated]: the
    directory [src/app/generated] has a line in the tree, although the
    only file below it is excluded relative to [proj] and the collector
    returns no file below it.  And at [proj] in the src layout with the
    built-in patterns and the extensions of [docs]: the directory [src]
    has a line, although it holds a non-matching file and a directory
    excluded by [*.egg-info] only, and the collector returns no file
    below it. *)
Theorem tree_displays_directory_without_surviving_file :
  (tree_dirs <$> generate_tree_nodes {[ ".py" ]} ["src/app/generated"] proj proj_listing_dir ""
   = Some [proj ++ ["src"]; proj ++ ["src"; "app"];
           proj ++ ["src"; "app"; "generated"]]
   ∧ generate_tree {[ ".py" ]} ["src/app/generated"] proj proj_listing_dir ""
     = Some ["└── src/";
             "    └── app/";
             "        ├── generated/";
             "        │   └── api.py";
             "        └── main.py"]
   ∧ rglob (proj ++ ["src"; "app"; "generated"]) (Dir "generated" [File "api.py"])
     = [(proj ++ ["src"; "app"; "generated"; "api.py"], true)]
   ∧ should_exclude (proj ++ ["src"; "app"; "generated"; "api.py"])
       ["src/app/generated"] proj = Some true
   ∧ collect_files proj {[ ".py" ]} ["src/app/generated"] proj_listing_dir
     = Some [proj ++ ["src"; "app"; "main.py"]])
  ∧ (generate_tree docs_extensions DEFAULT_EXCLUDES proj proj_listing_egg ""
     = Some ["├── src/";
             "└── README.md"]
     ∧ should_exclude (proj ++ ["src"; "pkg.egg-info"]) DEFAULT_EXCLUDES proj
       = Some true
     ∧ bool_decide (suffix (proj ++ ["src"; "main.py"]) ∈ docs_extensions) = false
     ∧ collect_files proj docs_extensions DEFAULT_EXCLUDES proj_listing_egg
       = Some [proj ++ ["README.md"]]).
Proof.
  split; [by vm_compute|]. split_and!; by vm_compute.
Qed.

(** * Further properties *)

(** ** More on strings and paths *)

Lemma app_String (c : ascii) (s t : string) : String c s +:+ t = String c (s +:+ t).
Proof. reflexivity. Qed.

Lemma app_empty (t : string) : "" +:+ t = t.
Proof. reflexivity. Qed.

Lemma string_app_assoc (a b c : string) : (a +:+ b) +:+ c = a +:+ (b +:+ c).
Proof.
  induction a as [|x a IH]; [done|]. rewrite !app_String. f_equal. exact IH.
Qed.

Lemma prefix_empty (s : string) : String.prefix "" s = true.
Proof. by destruct s. Qed.

Lemma prefix_app_l (p a b : string) :
  String.prefix p a = true → String.prefix p (a +:+ b) = true.
Proof.
  revert a. induction p as [|c p IH]; intros a; [intros _; apply prefix_empty|].
  destruct a as [|x a]; [done|]. rewrite app_String. cbn [String.prefix].
  destruct (ascii_dec c x); [apply IH | done].
Qed.

Lemma contains_app_l (p a b : string) :
  Str.contains p a = true → Str.contains p (a +:+ b) = true.
Proof.
  induction a as [|x a IH].
  - cbn [Str.contains]. rewrite orb_false_r. intros Hp.
    destruct p; [apply contains_empty | done].
  - rewrite app_String. cbn [Str.contains].
    intros [Hp|Hp]%orb_true_iff; apply orb_true_iff.
    + left. rewrite <- app_String. by apply prefix_app_l.
    + right. by apply IH.
Qed.

Lemma contains_app_r (p a b : string) :
  Str.contains p b = true → Str.contains p (a +:+ b) = true.
Proof.
  intros Hp. induction a as [|x a IH]; [done|].
  rewrite app_String. cbn [Str.contains]. rewrite IH. apply orb_true_r.
Qed.

Lemma prefix_refl (s : string) : String.prefix s s = true.
Proof. induction s as [|c s IH]; simpl; [done|]. by destruct (ascii_dec c c). Qed.

Lemma contains_refl (s : string) : Str.contains s s = true.
Proof. destruct s; cbn [Str.contains]; by rewrite prefix_refl. Qed.

(** A component of a path occurs in the string of the path. *)
Lemma contains_join_elem (x : string) (l : list string) :
  x ∈ l → Str.contains x (Str.join "/" l) = true.
Proof.
  induction l as [|y l IH]; [by intros ?%elem_of_nil|].
  intros [->|Hin]%elem_of_cons.
  - destruct l as [|z l]; [apply contains_refl|].
    cbn [Str.join]. apply contains_app_l, contains_refl.
  - destruct l as [|z l]; [by apply elem_of_nil in Hin|].
    cbn [Str.join]. apply contains_app_r, contains_app_r. by apply IH.
Qed.

Lemma join_app (l1 l2 : list string) :
  l1 ≠ [] → l2 ≠ [] →
  Str.join "/" (l1 ++ l2) = Str.join "/" l1 +:+ "/" +:+ Str.join "/" l2.
Proof.
  intros H1 H2. induction l1 as [|x l1 IH]; [done|].
  destruct l1 as [|y l1].
  - destruct l2; [done|]. reflexivity.
  - change ((x :: y :: l1) ++ l2) with (x :: (y :: l1) ++ l2).
    change (Str.join "/" (x :: (y :: l1) ++ l2))
      with (x +:+ "/" +:+ Str.join "/" ((y :: l1) ++ l2)).
    rewrite IH by done.
    change (Str.join "/" (x :: y :: l1)) with (x +:+ "/" +:+ Str.join "/" (y :: l1)).
    by rewrite !string_app_assoc.
Qed.

Lemma str_path_nonempty (l : list string) : l ≠ [] → str_path l = Str.join "/" l.
Proof. by destruct l. Qed.

Lemma name_app (p rel : Path) : rel ≠ [] → name (p ++ rel) = name rel.
Proof.
  intros Hrel. unfold name. destruct rel as [|x rel] using rev_ind; [done|].
  by rewrite app_assoc, !last_last.
Qed.

Lemma name_elem_of (rel : Path) : rel ≠ [] → name rel ∈ rel.
Proof.
  intros Hrel. unfold name. destruct rel as [|x rel _] using rev_ind; [done|].
  rewrite last_last. apply elem_of_app. right. by apply list_elem_of_singleton.
Qed.

Lemma relative_to_inv (p base rel : Path) :
  relative_to p base = Some rel → p = base ++ rel.
Proof.
  revert p. induction base as [|b base IH]; intros p H; simpl in *.
  - congruence.
  - destruct p as [|x p]; [discriminate|].
    destruct (String.eqb_spec x b) as [->|]; [|discriminate].
    f_equal. auto.
Qed.

(** ** More on the exclusion matcher *)

(** X1: [should_exclude] raises [ValueError] exactly when [path] does
    not lie at or below [base_path]; otherwise it returns a boolean, and
    with no pattern that boolean is false. *)
Theorem should_exclude_raises_iff_outside
    (path : Path) (excludes : list string) (base_path : Path) :
  (should_exclude path excludes base_path = None ↔ ¬ base_path `prefix_of` path)
  ∧ (is_Some (should_exclude path excludes base_path) ↔ base_path `prefix_of` path)
  ∧ (base_path `prefix_of` path → should_exclude path [] base_path = Some false).
Proof.
  assert (Hsome : is_Some (should_exclude path excludes base_path)
                  ↔ base_path `prefix_of` path).
  { split.
    - intros [b Hb]. unfold should_exclude in Hb.
      destruct (relative_to path base_path) as [rel|] eqn:Hrel; [|done].
      exists rel. by apply relative_to_inv.
    - intros [rel ->]. rewrite should_exclude_under. by eexists. }
  split_and!; [|done|].
  - rewrite <- Hsome. destruct (should_exclude path excludes base_path) as [b|].
    + split; [done | intros H; destruct H; by eexists].
    + split; [by intros _ [b Hb] | done].
  - intros [rel ->]. by rewrite should_exclude_under.
Qed.

(** X2: the answer for an appended pattern list is the disjunction of
    the answers for its parts; adding patterns never turns an excluded
    path into a kept one. *)
Theorem should_exclude_app
    (path : Path) (excludes1 excludes2 : list string) (base_path : Path) :
  should_exclude path (excludes1 ++ excludes2) base_path
  = (b1 ← should_exclude path excludes1 base_path;
     b2 ← should_exclude path excludes2 base_path;
     Some (b1 || b2))
  ∧ (should_exclude path excludes1 base_path = Some true →
     should_exclude path (excludes1 ++ excludes2) base_path = Some true
     ∧ should_exclude path (excludes2 ++ excludes1) base_path = Some true).
Proof.
  assert (Happ : ∀ e1 e2,
    should_exclude path (e1 ++ e2) base_path
    = (b1 ← should_exclude path e1 base_path;
       b2 ← should_exclude path e2 base_path; Some (b1 || b2))).
  { intros e1 e2. unfold should_exclude.
    destruct (relative_to path base_path) as [rel|]; [|done]. simpl.
    by rewrite !exclude_loop_existsb, existsb_app. }
  split; [apply Happ|].
  intros H1. rewrite !Happ, H1. simpl.
  destruct (should_exclude path excludes2 base_path) as [b2|] eqn:H2; simpl.
  - by rewrite orb_true_r.
  - exfalso. unfold should_exclude in *.
    by destruct (relative_to path base_path).
Qed.

(** How one pattern is matched against a path strictly below the base:
    by the end of the final name for a wildcard pattern, by occurrence
    in the relative path string otherwise. *)
Definition pattern_matches_below (rel : Path) (pattern : string) : bool :=
  if Str.startswith pattern "*"
  then Str.endswith (name rel) (Str.slice_from 1 pattern)
  else Str.contains pattern (str_path rel).

Lemma pattern_matches_below_eq (base rel : Path) (pattern : string) :
  rel ≠ [] →
  pattern_matches rel (name (base ++ rel)) (str_path rel) pattern
  = pattern_matches_below rel pattern.
Proof.
  intros Hrel. unfold pattern_matches, pattern_matches_below.
  rewrite name_app by done.
  destruct (Str.startswith pattern "*"); [done|].
  destruct (Str.contains pattern (str_path rel)) eqn:Hc; [apply orb_true_r|].
  rewrite orb_false_r. apply orb_false_iff. split.
  - apply bool_decide_eq_false. intros Hin.
    apply contains_join_elem in Hin. rewrite <- str_path_nonempty in Hin by done.
    congruence.
  - apply String.eqb_neq. intros Heq.
    assert (Hin : pattern ∈ rel) by (rewrite <- Heq; by apply name_elem_of).
    apply contains_join_elem in Hin. rewrite <- str_path_nonempty in Hin by done.
    congruence.
Qed.

Lemma should_exclude_below (base rel : Path) (excludes : list string) :
  rel ≠ [] →
  should_exclude (base ++ rel) excludes base
  = Some (existsb (pattern_matches_below rel) excludes).
Proof.
  intros Hrel. rewrite should_exclude_under. f_equal.
  induction excludes as [|pattern rest IH]; [done|].
  cbn [existsb]. by rewrite IH, pattern_matches_below_eq.
Qed.

(** X3: for a path strictly below the base, the exact-name test decides
    nothing: a pattern without a leading [*] excludes the path exactly
    when it occurs in the relative path string. *)
Theorem exact_name_test_is_subsumed
    (base rel : Path) (excludes : list string) :
  rel ≠ [] →
  Forall (λ pattern, Str.startswith pattern "*" = false) excludes →
  should_exclude (base ++ rel) excludes base
  = Some (existsb (λ pattern, Str.contains pattern (str_path rel)) excludes).
Proof.
  intros Hrel Hplain. rewrite should_exclude_below by done. f_equal.
  induction Hplain as [|pattern rest Hp _ IH]; [done|].
  cbn [existsb]. rewrite IH. f_equal.
  unfold pattern_matches_below. by rewrite Hp.
Qed.

Lemma exact_name_test_is_subsumed_witness :
  should_exclude (["home"; "proj"] ++ ["src"; "contest.py"]) ["test"; "build"]
    ["home"; "proj"]
  = Some (existsb (λ pattern, Str.contains pattern (str_path ["src"; "contest.py"]))
            ["test"; "build"]).
Proof.
  apply (exact_name_test_is_subsumed ["home"; "proj"] ["src"; "contest.py"]
           ["test"; "build"]).
  - discriminate.
  - repeat constructor.
Defined.

Lemma should_exclude_deeper_true
    (base rel1 rel2 : Path) (excludes : list string) :
  rel2 ≠ [] →
  should_exclude (base ++ rel1 ++ rel2) excludes (base ++ rel1) = Some true →
  should_exclude (base ++ rel1 ++ rel2) excludes base = Some true.
Proof.
  intros Hrel2.
  rewrite (app_assoc base rel1 rel2) at 1.
  rewrite !should_exclude_below by (done || by destruct rel1).
  intros [= H]. f_equal. apply existsb_exists in H as (pattern & Hin & Hm).
  apply existsb_exists. exists pattern. split; [done|].
  unfold pattern_matches_below in *. rewrite name_app by done.
  destruct (Str.startswith pattern "*"); [done|].
  destruct rel1 as [|x rel1]; [done|].
  rewrite !str_path_nonempty in * by done.
  rewrite join_app by done. by apply contains_app_r, contains_app_r.
Qed.

(** X4: a path strictly below a directory below the base that is
    excluded relative to that directory is excluded relative to the base
    as well. *)
Theorem should_exclude_deeper_base
    (base rel1 rel2 : Path) (excludes : list string) :
  rel2 ≠ [] →
  should_exclude (base ++ rel1 ++ rel2) excludes (base ++ rel1) = Some true →
  should_exclude (base ++ rel1 ++ rel2) excludes base = Some true.
Proof. apply should_exclude_deeper_true. Qed.

Lemma should_exclude_deeper_base_witness :
  should_exclude (["home"; "proj"] ++ ["src"] ++ ["app"; "gen.py"]) ["app/gen"]
    ["home"; "proj"] = Some true.
Proof.
  apply (should_exclude_deeper_base ["home"; "proj"] ["src"] ["app"; "gen.py"] ["app/gen"]).
  - discriminate.
  - reflexivity.
Defined.

(** ** What the collector returns *)

Lemma elem_of_mapM_concat {A B} (f : A → option (list B)) (l : list A)
    (below : list (list B)) :
  mapM f l = Some below →
  ∀ y, y ∈ concat below ↔ ∃ x ys, x ∈ l ∧ f x = Some ys ∧ y ∈ ys.
Proof.
  revert below. induction l as [|x l IH]; intros below Hm y; simpl in Hm.
  - injection Hm as <-. simpl. split; [by intros ?%elem_of_nil|].
    by intros (x & ys & ?%elem_of_nil & _).
  - destruct (f x) as [ys|] eqn:Hx; [|done]. simpl in Hm.
    destruct (mapM f l) as [k|] eqn:Hl; [|done]. injection Hm as <-.
    simpl. rewrite elem_of_app, (IH k eq_refl y). split.
    + intros [Hy|(x' & ys' & Hin & Hf & Hy)].
      * exists x, ys. split_and!; [apply list_elem_of_here | done | done].
      * exists x', ys'. split_and!; [by apply list_elem_of_further | done | done].
    + intros (x' & ys' & [->|Hin]%elem_of_cons & Hf & Hy).
      * left. congruence.
      * right. by exists x', ys'.
Qed.

Section CollectorExact.
Context (base_path : Path) (extensions : gset string) (excludes : list string).

(** [reach root listing rel]: starting in the directory [root] below the
    base path, whose content is [listing], the relative path [rel] leads
    through directories that are neither excluded nor symbolic links to
    an entry that is not a directory, is not excluded and has a selected
    extension. *)
Inductive reach : Path → list entry → Path → Prop :=
| reach_file (root : Path) (listing : list entry) (e : entry) (n : string) :
    e ∈ listing → is_dir e = false → entry_name e = n →
    should_exclude (base_path ++ root ++ [n]) excludes base_path = Some false →
    Str.lower (suffix (base_path ++ root ++ [n])) ∈ extensions →
    reach root listing [n]
| reach_dir (root : Path) (listing : list entry) (d : string)
    (sub : list entry) (rel : Path) :
    Dir d sub ∈ listing →
    should_exclude (base_path ++ root ++ [d]) excludes base_path = Some false →
    reach (root ++ [d]) sub rel →
    reach root listing (d :: rel).

(** A walk that returns exactly the files reached in [listing]. *)
Definition walker_exact (w : walker) (listing : list entry) : Prop :=
  ∀ root, ∃ files,
    w (base_path ++ root) = Some files
    ∧ ∀ p, p ∈ files ↔ ∃ rel, p = base_path ++ root ++ rel ∧ reach root listing rel.

Definition item_exact (it : entry * walker) : Prop :=
  match it.1 with
  | Dir _ sub => walker_exact it.2 sub
  | Link _ _ => ∀ root_path, it.2 root_path = Some []
  | File _ | Other _ => True
  end.

Lemma scan_files_elem (root : Path) (filenames : list string) (files : list Path) :
  scan_files base_path extensions excludes (base_path ++ root) filenames = Some files →
  ∀ p, p ∈ files ↔
       ∃ n, n ∈ filenames ∧ p = base_path ++ root ++ [n]
            ∧ should_exclude p excludes base_path = Some false
            ∧ Str.lower (suffix p) ∈ extensions.
Proof.
  revert files. induction filenames as [|n rest IH]; intros files Hs p; simpl in Hs.
  - injection Hs as <-. split; [by intros ?%elem_of_nil|].
    by intros (n & ?%elem_of_nil & _).
  - rewrite joinpath_under in Hs.
    destruct (should_exclude (base_path ++ root ++ [n]) excludes base_path)
      as [[]|] eqn:Hx; simpl in Hs; [| |done].
    + rewrite (IH files Hs p). split.
      * intros (m & Hm & H). exists m. split; [by apply list_elem_of_further | done].
      * intros (m & [->|Hm]%elem_of_cons & -> & Hex & Hext); [congruence|].
        by exists m.
    + destruct (bool_decide _) eqn:Hext in Hs.
      * apply bool_decide_eq_true in Hext.
        destruct (scan_files _ _ _ _ rest) as [files'|] eqn:Hrest; [|done].
        injection Hs as <-. rewrite elem_of_cons, (IH files' eq_refl p). split.
        -- intros [->|(m & Hm & H)].
           ++ exists n. split_and!; [apply list_elem_of_here | done..].
           ++ exists m. split; [by apply list_elem_of_further | done].
        -- intros (m & [->|Hm]%elem_of_cons & -> & Hex & Hext'); [by left|].
           right. by exists m.
      * apply bool_decide_eq_false in Hext. rewrite (IH files Hs p). split.
        -- intros (m & Hm & H). exists m. split; [by apply list_elem_of_further | done].
        -- intros (m & [->|Hm]%elem_of_cons & -> & Hex & Hext'); [done|].
           by exists m.
Qed.

Lemma prune_dirs_elem (root : Path) (dirs dirs' : list (string * walker)) :
  prune_dirs base_path excludes (base_path ++ root) dirs = Some dirs' →
  ∀ d, d ∈ dirs' ↔
       d ∈ dirs
       ∧ should_exclude (base_path ++ root ++ [d.1]) excludes base_path = Some false.
Proof.
  revert dirs'. induction dirs as [|x rest IH]; intros dirs' Hp d; simpl in Hp.
  - injection Hp as <-. split; [by intros ?%elem_of_nil | by intros [?%elem_of_nil _]].
  - rewrite joinpath_under in Hp.
    destruct (should_exclude (base_path ++ root ++ [x.1]) excludes base_path)
      as [b|] eqn:Hx; [|done]. simpl in Hp.
    destruct (prune_dirs _ _ _ rest) as [rest'|] eqn:Hrest; [|done].
    injection Hp as <-. specialize (IH rest' eq_refl d).
    destruct b.
    + rewrite IH. split.
      * intros [Hin Hex]. split; [by apply list_elem_of_further | done].
      * intros [[->|Hin]%elem_of_cons Hex]; [congruence | done].
    + rewrite !elem_of_cons, IH. split.
      * intros [->|[Hin Hex]]; [by split; [left|] | by split; [right|]].
      * intros [[->|Hin] Hex]; [by left | by right].
Qed.

Lemma walk_step_exact (items : list (entry * walker)) :
  Forall item_exact items →
  walker_exact (λ root_path, walk_step base_path extensions excludes root_path items)
    (items.*1).
Proof.
  intros Hitems root. unfold walk_step.
  set (dirs := (λ it : entry * walker, (entry_name it.1, it.2)) <$> filter _ items).
  set (filenames := (λ it : entry * walker, entry_name it.1) <$> filter _ items).
  destruct (prune_dirs_spec base_path excludes root dirs) as (dirs' & Hprune & _).
  destruct (scan_files_spec base_path extensions excludes root filenames)
    as (files & Hscan & _).
  rewrite Hprune, Hscan. simpl.
  assert (Hdir : ∀ d, d ∈ dirs' →
            (∃ n sub, Dir n sub ∈ items.*1 ∧ d.1 = n ∧ walker_exact d.2 sub
               ∧ should_exclude (base_path ++ root ++ [n]) excludes base_path = Some false)
            ∨ (∀ root_path, d.2 root_path = Some [])).
  { intros d [Hd Hex]%(prune_dirs_elem root dirs dirs' Hprune).
    apply list_elem_of_fmap in Hd as (it & -> & [Hdir Hin]%list_elem_of_filter).
    rewrite Forall_forall in Hitems. specialize (Hitems it Hin).
    unfold item_exact in Hitems.
    destruct it as [[n|n sub|n sub|n] w]; [done | | by right | done].
    left. exists n, sub. split_and!; [|done..].
    apply list_elem_of_fmap. by exists (Dir n sub, w). }
  assert (Hbelow : ∃ below,
            mapM (λ d : string * walker, d.2 (joinpath (base_path ++ root) d.1)) dirs'
            = Some below).
  { apply (mapM_is_Some_2 _). apply Forall_forall. intros d Hd. simpl.
    destruct (Hdir d Hd) as [(n & sub & _ & _ & Hw & _)|Hnil].
    - rewrite joinpath_under. destruct (Hw (root ++ [d.1])) as (fs & Hfs & _).
      by eexists.
    - rewrite Hnil. by eexists. }
  destruct Hbelow as (below & Hbelow). rewrite Hbelow. simpl.
  eexists; split; [done|]. intros p.
  rewrite elem_of_app, (scan_files_elem root filenames files Hscan p),
    (elem_of_mapM_concat _ dirs' below Hbelow p). split.
  - intros [(n & Hn & -> & Hex & Hext)|(d & fs & Hd & Hfs & Hp)].
    + exists [n]. split; [done|].
      apply list_elem_of_fmap in Hn as (it & -> & [Hfile Hin]%list_elem_of_filter).
      apply (reach_file root (items.*1) it.1); [|done..].
      apply list_elem_of_fmap. by exists it.
    + destruct (Hdir d Hd) as [(n & sub & Hin & Hn & Hw & Hex)|Hnil].
      * rewrite joinpath_under in Hfs.
        destruct (Hw (root ++ [d.1])) as (fs' & Hfs' & Hreach).
        assert (fs' = fs) as -> by congruence.
        apply Hreach in Hp as (rel & -> & Hrel). subst n.
        exists (d.1 :: rel). split; [by rewrite <- !app_assoc|].
        by eapply reach_dir.
      * rewrite Hnil in Hfs. injection Hfs as <-. by apply elem_of_nil in Hp.
  - intros (rel & -> & Hreach).
    inversion Hreach as [? ? e n Hin Hnd Hn Hex Hext|? ? n sub rel' Hin Hex Hsub]; subst.
    + left. exists (entry_name e). split_and!; [|done..].
      apply list_elem_of_fmap in Hin as ([e' w] & He & Hin). simpl in He. subst e'.
      apply list_elem_of_fmap. exists (e, w). split; [done|].
      by apply list_elem_of_filter.
    + right.
      apply list_elem_of_fmap in Hin as ([e w] & He & Hin). simpl in He. subst e.
      assert (Hd : (n, w) ∈ dirs').
      { apply (prune_dirs_elem root dirs dirs' Hprune). split; [|done].
        apply list_elem_of_fmap. exists (Dir n sub, w). split; [done|].
        by apply list_elem_of_filter. }
      rewrite Forall_forall in Hitems. specialize (Hitems _ Hin).
      unfold item_exact in Hitems. simpl in Hitems.
      destruct (Hitems (root ++ [n])) as (fs & Hfs & Hreach').
      exists (n, w), fs. split_and!; [done | by rewrite joinpath_under |].
      apply Hreach'. exists rel'. split; [by rewrite <- !app_assoc | done].
Qed.

Lemma walk_exact (e : entry) :
  item_exact (e, walk base_path extensions excludes e).
Proof.
  induction e as [n|n listing IH|n listing _|n] using entry_ind_nested; [done| |done..].
  unfold item_exact. simpl.
  assert (Hitems : Forall item_exact
            ((λ c, (c, walk base_path extensions excludes c)) <$> listing)).
  { by rewrite Forall_fmap. }
  apply walk_step_exact in Hitems.
  by rewrite <- list_fmap_compose, list_fmap_id in Hitems.
Qed.

(** Sorting does not change which files are returned. *)
Lemma collect_files_Permutation (listing : list entry) (files0 : list Path) :
  walk_step base_path extensions excludes base_path
    ((λ c, (c, walk base_path extensions excludes c)) <$> listing) = Some files0 →
  ∃ files,
    collect_files base_path extensions excludes listing = Some files
    ∧ files ≡ₚ files0.
Proof.
  intros Hwalk.
  destruct (walk_step_spec base_path extensions excludes
              ((λ c, (c, walk base_path extensions excludes c)) <$> listing))
    with (rel := @nil string) as (files0' & Hwalk' & Hkept).
  { rewrite Forall_fmap. apply Forall_forall. intros c _. apply walk_spec. }
  rewrite app_nil_r in Hwalk'. assert (files0' = files0) as -> by congruence.
  unfold collect_files. rewrite Hwalk. simpl.
  destruct (kept_relative base_path extensions excludes files0 Hkept) as (rels0 & ->).
  set (decorate := λ rel : Path, (rel_key rel, rel)).
  assert (Hkeyed : mapM (λ p, k ← sort_key base_path p; Some (k, p))
                     ((base_path ++.) <$> rels0)
                   = Some (prod_map id (base_path ++.) <$> (decorate <$> rels0))).
  { apply mapM_Some. rewrite <- list_fmap_compose.
    apply Forall2_fmap, Forall_Forall2_diag, Forall_forall.
    intros rel _. simpl. by rewrite sort_key_under. }
  rewrite Hkeyed. simpl. eexists; split; [done|].
  rewrite sort_by_Permutation, <- !list_fmap_compose.
  match goal with |- ?l ≡ₚ ?k => enough (l = k) as -> by done end.
  by apply list_fmap_ext.
Qed.

Lemma collect_files_exact (listing : list entry) :
  ∃ files,
    collect_files base_path extensions excludes listing = Some files
    ∧ ∀ p, p ∈ files ↔ ∃ rel, p = base_path ++ rel ∧ reach [] listing rel.
Proof.
  assert (Hitems : Forall item_exact
            ((λ c, (c, walk base_path extensions excludes c)) <$> listing)).
  { rewrite Forall_fmap. apply Forall_forall. intros c _. apply walk_exact. }
  apply walk_step_exact in Hitems.
  rewrite <- list_fmap_compose, list_fmap_id in Hitems.
  destruct (Hitems []) as (files0 & Hwalk & Hreach). rewrite app_nil_r in Hwalk.
  destruct (collect_files_Permutation listing files0 Hwalk) as (files & Hfiles & Hperm).
  exists files. split; [done|]. intros p. by rewrite Hperm, Hreach.
Qed.

(** Every directory on a reached path is one that the matcher keeps. *)
Lemma reach_ancestors (root : Path) (listing : list entry) (rel : Path) :
  reach root listing rel →
  ∀ r1 r2, rel = r1 ++ r2 → r1 ≠ [] →
    should_exclude (base_path ++ root ++ r1) excludes base_path = Some false.
Proof.
  induction 1 as [root listing e n Hin Hnd Hn Hex Hext
                 |root listing d sub rel Hin Hex Hsub IH];
    intros r1 r2 Heq Hr1.
  - destruct r1 as [|x r1]; [done|]. injection Heq as -> Heq.
    symmetry in Heq. by apply app_eq_nil in Heq as [-> _].
  - destruct r1 as [|x r1]; [done|]. injection Heq as -> Heq.
    destruct r1 as [|y r1]; [done|].
    specialize (IH (y :: r1) r2 Heq). rewrite <- !app_assoc in IH. by apply IH.
Qed.

Lemma reach_nonempty (root : Path) (listing : list entry) (rel : Path) :
  reach root listing rel → rel ≠ [].
Proof. by destruct 1. Qed.

End CollectorExact.

(** [file_at listing rel]: the relative path [rel] names an entry of the
    directory tree [listing] that [os.walk] reports among the file
    names: one that is not a directory, below directories that are not
    symbolic links. *)
Inductive file_at : list entry → Path → Prop :=
| file_here (listing : list entry) (e : entry) (n : string) :
    e ∈ listing → is_dir e = false → entry_name e = n → file_at listing [n]
| file_below (listing : list entry) (d : string) (sub : list entry) (rel : Path) :
    Dir d sub ∈ listing → file_at sub rel → file_at listing (d :: rel).

Lemma reach_iff (base_path : Path) (extensions : gset string)
    (excludes : list string) (root : Path) (listing : list entry) (rel : Path) :
  reach base_path extensions excludes root listing rel
  ↔ file_at listing rel
    ∧ (∀ r1 r2, rel = r1 ++ r2 → r1 ≠ [] →
         should_exclude (base_path ++ root ++ r1) excludes base_path = Some false)
    ∧ Str.lower (suffix (base_path ++ root ++ rel)) ∈ extensions.
Proof.
  split.
  - intros Hreach. split_and!; [| by eapply reach_ancestors |].
    + induction Hreach; [by econstructor | by econstructor].
    + induction Hreach as [|root listing d sub rel Hin Hex Hsub IH]; [done|].
      by rewrite <- !app_assoc in IH.
  - intros (Hfile & Hanc & Hext). revert root Hanc Hext.
    induction Hfile as [listing e n Hin Hnd Hn|listing d sub rel Hin Hsub IH];
      intros root Hanc Hext.
    + econstructor; [done.. | | done]. by apply (Hanc [n] []).
    + econstructor; [done | by apply (Hanc [d] rel) |].
      apply IH.
      * intros r1 r2 -> Hr1. rewrite <- !app_assoc. by apply (Hanc (d :: r1) r2).
      * by rewrite <- !app_assoc.
Qed.

(** X5: [collect_files] never raises, and returns exactly the files of
    the tree that have a selected extension and are not excluded, nor is
    any directory on the way from the base path to them. *)
Theorem collect_files_returns_exactly
    (base_path : Path) (extensions : gset string) (excludes : list string)
    (listing : list entry) :
  ∃ files,
    collect_files base_path extensions excludes listing = Some files
    ∧ (∀ p, p ∈ files → base_path `prefix_of` p)
    ∧ ∀ rel, base_path ++ rel ∈ files
        ↔ file_at listing rel
          ∧ (∀ r1 r2, rel = r1 ++ r2 → r1 ≠ [] →
               should_exclude (base_path ++ r1) excludes base_path = Some false)
          ∧ Str.lower (suffix (base_path ++ rel)) ∈ extensions.
Proof.
  destruct (collect_files_exact base_path extensions excludes listing)
    as (files & Hfiles & Hreach).
  exists files. split_and!; [done | |].
  - intros p (rel & -> & _)%Hreach. by exists rel.
  - intros rel. rewrite Hreach, <- (reach_iff base_path extensions excludes [] listing rel).
    split.
    + by intros (rel' & ->%app_inv_head & H).
    + intros H. by exists rel.
Qed.

(** X6: nothing at or below an excluded directory is returned. *)
Theorem collect_files_skips_excluded_directory
    (base_path : Path) (extensions : gset string) (excludes : list string)
    (listing : list entry) (dir below : Path) :
  dir ≠ [] →
  should_exclude (base_path ++ dir) excludes base_path = Some true →
  ∃ files,
    collect_files base_path extensions excludes listing = Some files
    ∧ base_path ++ dir ++ below ∉ files.
Proof.
  intros Hdir Hex.
  destruct (collect_files_exact base_path extensions excludes listing)
    as (files & Hfiles & Hreach).
  exists files. split; [done|].
  intros (rel & <-%app_inv_head & H)%Hreach.
  apply reach_iff in H as (_ & Hanc & _).
  specialize (Hanc dir below eq_refl Hdir). simpl in Hanc. congruence.
Qed.

Lemma collect_files_skips_excluded_directory_witness :
  ∃ files,
    collect_files ["home"; "proj"] {[ ".js" ]} DEFAULT_EXCLUDES
      [Dir "node_modules" [Dir "left-pad" [File "index.js"]]; File "app.js"]
    = Some files
    ∧ ["home"; "proj"] ++ ["node_modules"] ++ ["left-pad"; "index.js"] ∉ files.
Proof.
  apply (collect_files_skips_excluded_directory ["home"; "proj"] {[ ".js" ]}
           DEFAULT_EXCLUDES
           [Dir "node_modules" [Dir "left-pad" [File "index.js"]]; File "app.js"]
           ["node_modules"] ["left-pad"; "index.js"]).
  - discriminate.
  - reflexivity.
Defined.

Lemma should_exclude_subseteq (base rel : Path) (excludes excludes' : list string) :
  excludes ⊆ excludes' →
  should_exclude (base ++ rel) excludes' base = Some false →
  should_exclude (base ++ rel) excludes base = Some false.
Proof.
  intros Hsub. rewrite !should_exclude_under. intros [= H]. f_equal.
  apply not_true_is_false. intros (pattern & Hin & Hm)%existsb_exists.
  apply not_true_iff_false in H. apply H, existsb_exists.
  exists pattern. split; [|done]. apply list_elem_of_In, Hsub. by apply list_elem_of_In.
Qed.

(** X7: more exclude patterns or fewer extensions never add a file to
    the collected list. *)
Theorem collect_files_monotone
    (base_path : Path) (extensions extensions' : gset string)
    (excludes excludes' : list string) (listing : list entry) :
  excludes ⊆ excludes' →
  extensions ⊆ extensions' →
  ∃ files files',
    collect_files base_path extensions excludes' listing = Some files
    ∧ collect_files base_path extensions' excludes listing = Some files'
    ∧ files ⊆ files'.
Proof.
  intros Hex Hext.
  destruct (collect_files_exact base_path extensions excludes' listing)
    as (files & Hfiles & Hreach).
  destruct (collect_files_exact base_path extensions' excludes listing)
    as (files' & Hfiles' & Hreach').
  exists files, files'. split_and!; [done..|].
  intros p (rel & -> & H)%Hreach. apply Hreach'. exists rel. split; [done|].
  apply reach_iff in H as (Hfile & Hanc & Hsuf). apply reach_iff. split_and!.
  - done.
  - intros r1 r2 Heq Hr1. eapply should_exclude_subseteq; [done|]. by eapply Hanc.
  - by apply Hext.
Qed.

Lemma collect_files_monotone_witness :
  ∃ files files',
    collect_files ["home"; "proj"] {[ ".py" ]} ["tests"; "*.log"]
      [Dir "tests" [File "t.py"]; File "a.py"; File "b.js"] = Some files
    ∧ collect_files ["home"; "proj"] {[ ".py"; ".js" ]} ["*.log"]
        [Dir "tests" [File "t.py"]; File "a.py"; File "b.js"] = Some files'
    ∧ files ⊆ files'.
Proof.
  apply (collect_files_monotone ["home"; "proj"] {[ ".py" ]} {[ ".py"; ".js" ]}
           ["*.log"] ["tests"; "*.log"]).
  - apply list_subseteq_cons. done.
  - apply union_subseteq_l.
Defined.

(** ** What the tree displays *)

Lemma tree_files_cons (n : node) (nodes : list node) :
  tree_files (n :: nodes)
  = if node_is_file n then node_path n :: tree_files nodes else tree_files nodes.
Proof.
  unfold tree_files. rewrite filter_cons.
  destruct (decide (node_is_file n = true)) as [->|Hn]; [done|].
  by apply not_true_is_false in Hn as ->.
Qed.

Lemma tree_files_app (nodes1 nodes2 : list node) :
  tree_files (nodes1 ++ nodes2) = tree_files nodes1 ++ tree_files nodes2.
Proof. unfold tree_files. by rewrite filter_app, fmap_app. Qed.

Lemma prefix_of_parent_joinpath (P : Path) (c : string) (prefix : string) :
  exclusion_base P prefix `prefix_of` joinpath P c.
Proof.
  unfold exclusion_base, parent, joinpath.
  destruct (negb (Str.is_empty prefix)).
  - destruct P as [|x P _] using rev_ind; [by exists [c]|].
    rewrite removelast_last. exists [x; c]. by rewrite <- app_assoc.
  - by exists [c].
Qed.

Lemma is_empty_app_r (s t : string) : t ≠ "" → Str.is_empty (s +:+ t) = false.
Proof. intros Ht. destruct s; [by destruct t | done]. Qed.

(** Below a listed directory the exclusion base is that directory's
    parent, whatever the prefix was. *)
Lemma exclusion_base_below (P : Path) (c : string) (prefix : string) (is_last : bool) :
  exclusion_base (joinpath P c)
    (prefix +:+ (if is_last then "    " else "│   ")) = P.
Proof.
  unfold exclusion_base. rewrite is_empty_app_r by (by destruct is_last).
  simpl. apply removelast_last.
Qed.

(** The listing behind a directory or a symbolic link to one. *)
Definition entry_listing (e : entry) : list entry :=
  match e with
  | Dir _ listing | Link _ listing => listing
  | File _ | Other _ => []
  end.

(** A tree without special files: every entry that is not a directory
    is a regular file. *)
Fixpoint no_special (e : entry) : bool :=
  match e with
  | File _ => true
  | Dir _ listing | Link _ listing => forallb no_special listing
  | Other _ => false
  end.

(** A tree of directories and regular files only, without symbolic
    links to directories and without special files. *)
Fixpoint plain (e : entry) : bool :=
  match e with
  | File _ => true
  | Dir _ listing => forallb plain listing
  | Link _ _ | Other _ => false
  end.

Lemma forallb_elem_of {A} (f : A → bool) (l : list A) (x : A) :
  forallb f l = true → x ∈ l → f x = true.
Proof. rewrite forallb_forall. intros H Hx. by apply H, list_elem_of_In. Qed.

Lemma plain_no_special (e : entry) : plain e = true → no_special e = true.
Proof.
  induction e as [n|n listing IH|n listing _|n] using entry_ind_nested; try done.
  cbn [plain no_special]. intros H. apply forallb_forall. intros c Hc.
  apply list_elem_of_In in Hc. rewrite Forall_forall in IH. apply IH; [done|].
  by eapply forallb_elem_of.
Qed.

Lemma rglob_below (item : Path) (e : entry) :
  Forall (λ f, ∃ rel, f.1 = item ++ rel ∧ rel ≠ []) (rglob item e).
Proof.
  revert item.
  induction e as [n|n listing IH|n listing IH|n] using entry_ind_nested; intros item;
    [constructor | | | constructor].
  all: cbn [rglob]; apply Forall_app; split;
    [rewrite Forall_fmap; apply Forall_forall; intros c _; by exists [entry_name c]|].
  all: apply Forall_concat; rewrite Forall_fmap;
    rewrite Forall_forall in IH; apply Forall_forall; intros c Hc.
  all: destruct c as [m|m sub|m sub|m];
    [simpl; constructor | | simpl; constructor | simpl; constructor].
  all: eapply Forall_impl; [apply (IH _ Hc)|];
    intros f (rel & -> & _); exists (m :: rel);
    unfold joinpath; cbn [entry_name]; by rewrite <- app_assoc.
Qed.

(** A regular file that [os.walk] reports below a directory is found by
    [rglob] too, when there are no special files. *)
Lemma rglob_file_at (listing : list entry) (rel : Path) :
  file_at listing rel →
  forallb no_special listing = true →
  ∀ (item : Path) (e : entry),
    is_dir e = true → entry_listing e = listing →
    (item ++ rel, true) ∈ rglob item e.
Proof.
  induction 1 as [listing e0 m Hin Hnd Hm|listing d sub rel Hin Hfile IH];
    intros Hreg item e Hd <-.
  - assert (Hf : is_file e0 = true).
    { pose proof (forallb_elem_of _ _ _ Hreg Hin) as H0. by destruct e0. }
    destruct e as [n|n listing|n listing|n]; try done.
    all: cbn [rglob]; apply elem_of_app; left;
      apply list_elem_of_fmap; exists e0; split; [|done];
      unfold joinpath; by rewrite Hm, Hf.
  - assert (Hsub : forallb no_special sub = true).
    { by apply (forallb_elem_of _ _ _ Hreg Hin). }
    specialize (IH Hsub (joinpath item d) (Dir d sub) eq_refl eq_refl).
    unfold joinpath in IH. rewrite <- app_assoc in IH.
    destruct e as [n|n listing|n listing|n]; try done.
    all: cbn [rglob]; apply elem_of_app; right;
      apply list_elem_of_In, in_concat;
      exists (rglob (joinpath item d) (Dir d sub)); split;
      [apply list_elem_of_In, list_elem_of_fmap; by exists (Dir d sub)
      |by apply list_elem_of_In].
Qed.

Section TreeExact.
Context (extensions : gset string) (excludes : list string).

(** [tree_reach base dir listing rel]: in the directory [dir], whose
    content is [listing] and whose entries are tested relative to
    [base], the relative path [rel] leads through directories (or links
    to directories) that the renderer displays to an entry that it
    displays as a leaf: one that is not a directory, is not excluded
    and, if it is a regular file, has a selected extension. *)
Inductive tree_reach : Path → Path → list entry → Path → Prop :=
| tree_reach_file (base dir : Path) (listing : list entry) (e : entry) (n : string) :
    e ∈ listing → is_dir e = false → entry_name e = n →
    should_exclude (dir ++ [n]) excludes base = Some false →
    (is_file e = true → Str.lower (suffix (dir ++ [n])) ∈ extensions) →
    tree_reach base dir listing [n]
| tree_reach_dir (base dir : Path) (listing : list entry) (e : entry) (d : string)
    (rel : Path) :
    e ∈ listing → is_dir e = true → entry_name e = d →
    should_exclude (dir ++ [d]) excludes base = Some false →
    any_relevant extensions excludes base (rglob (dir ++ [d]) e) = Some true →
    tree_reach dir (dir ++ [d]) (entry_listing e) rel →
    tree_reach base dir listing (d :: rel).

Lemma any_relevant_spec (base : Path) (found : list (Path * bool)) :
  Forall (λ f, base `prefix_of` f.1) found →
  ∃ b, any_relevant extensions excludes base found = Some b
       ∧ (b = true ↔ ∃ f, (f, true) ∈ found
                          ∧ should_exclude f excludes base = Some false
                          ∧ Str.lower (suffix f) ∈ extensions).
Proof.
  induction 1 as [|[f is_f] found [rel Hf] _ (b & Hb & Hiff)]; simpl in *.
  - exists false. split; [done|]. split; [done|]. by intros (f & ?%elem_of_nil & _).
  - subst f. destruct is_f.
    + rewrite should_exclude_under. simpl.
      destruct (existsb _ excludes) eqn:Hex.
      * exists b. split; [done|]. rewrite Hiff. split.
        -- intros (f & Hin & H). exists f. split; [by apply list_elem_of_further | done].
        -- intros (f & [[= ->]|Hin]%elem_of_cons & Hx & Hext).
           ++ rewrite should_exclude_under in Hx. congruence.
           ++ by exists f.
      * destruct (bool_decide _) eqn:Hext.
        -- apply bool_decide_eq_true in Hext. exists true. split; [done|].
           split; [|done]. intros _. exists (base ++ rel).
           split_and!; [apply list_elem_of_here | | done].
           rewrite should_exclude_under. by f_equal.
        -- apply bool_decide_eq_false in Hext. exists b. split; [done|].
           rewrite Hiff. split.
           ++ intros (f & Hin & H). exists f. split; [by apply list_elem_of_further | done].
           ++ intros (f & [[= ->]|Hin]%elem_of_cons & Hx & Hext'); [done|]. by exists f.
    + exists b. split; [done|]. rewrite Hiff. split.
      * intros (f & Hin & H). exists f. split; [by apply list_elem_of_further | done].
      * intros (f & [[=]|Hin]%elem_of_cons & H). by exists f.
Qed.

Lemma filter_items_spec (base : Path) (items : list item) :
  Forall (λ it, base `prefix_of` item_path it) items →
  ∃ filtered,
    filter_items extensions excludes base items = Some filtered
    ∧ ∀ it, it ∈ filtered ↔
        it ∈ items
        ∧ should_exclude (item_path it) excludes base = Some false
        ∧ (is_file (item_entry it) = true →
           Str.lower (suffix (item_path it)) ∈ extensions).
Proof.
  induction 1 as [|x items [rel Hx] _ (filtered & Hf & Hiff)]; simpl.
  - exists []. split; [done|]. intros it. split; [by intros ?%elem_of_nil|].
    by intros [?%elem_of_nil _].
  - assert (Hsx : should_exclude (item_path x) excludes base
                  = Some (existsb (pattern_matches rel (name (base ++ rel)) (str_path rel))
                            excludes)).
    { by rewrite Hx, should_exclude_under. }
    rewrite Hsx. cbn [mbind option_bind].
    destruct (existsb _ excludes) eqn:Hex.
    + exists filtered. split; [done|]. intros it. rewrite Hiff, elem_of_cons. split.
      * intros (Hin & H). by split; [right|].
      * intros ([->|Hin] & Hx' & H); [congruence | done].
    + destruct (is_file (item_entry x)
                && negb (bool_decide (Str.lower (suffix (item_path x)) ∈ extensions)))
        eqn:Hskip.
      * exists filtered. split; [done|]. intros it. rewrite Hiff, elem_of_cons. split.
        -- intros (Hin & H). by split; [right|].
        -- intros ([->|Hin] & Hx' & H); [|done].
           apply andb_true_iff in Hskip as [Hfile Hext].
           apply negb_true_iff, bool_decide_eq_false in Hext. by destruct Hext; auto.
      * rewrite Hf. simpl. eexists; split; [done|]. intros it.
        rewrite !elem_of_cons, Hiff. split.
        -- intros [->|(Hin & H)]; [|by split; [right|]].
           split_and!; [by left | done |]. intros Hfile. rewrite Hfile in Hskip.
           simpl in Hskip. by apply negb_false_iff, bool_decide_eq_true in Hskip.
        -- intros ([->|Hin] & H); [by left | by right].
Qed.

(** A renderer that raises nothing and displays exactly the files
    reached in [sub]. *)
Definition renderer_exact (w : renderer) (sub : list entry) : Prop :=
  ∀ dir prefix, ∃ nodes,
    w dir prefix = Some nodes
    ∧ ∀ p, p ∈ tree_files nodes ↔
        ∃ rel, p = dir ++ rel ∧ tree_reach (exclusion_base dir prefix) dir sub rel.

Definition item_ok (dir : Path) (it : item) : Prop :=
  item_path it = dir ++ [entry_name (item_entry it)]
  ∧ (is_dir (item_entry it) = true →
     renderer_exact (item_tree it) (entry_listing (item_entry it))).

(** What one displayed item contributes to the leaves. *)
Definition item_leaf (base dir : Path) (it : item) (p : Path) : Prop :=
  if is_dir (item_entry it) then
    any_relevant extensions excludes base
      (rglob (dir ++ [entry_name (item_entry it)]) (item_entry it)) = Some true
    ∧ ∃ rel, p = dir ++ entry_name (item_entry it) :: rel
             ∧ tree_reach dir (dir ++ [entry_name (item_entry it)])
                 (entry_listing (item_entry it)) rel
  else p = dir ++ [entry_name (item_entry it)].

Lemma render_items_spec (base dir : Path) (prefix : string) (len i : nat)
    (items : list item) :
  base `prefix_of` dir →
  Forall (item_ok dir) items →
  ∃ nodes,
    render_items extensions excludes base prefix len i items = Some nodes
    ∧ ∀ p, p ∈ tree_files nodes ↔ ∃ it, it ∈ items ∧ item_leaf base dir it p.
Proof.
  intros [r0 Hbase] Hitems. revert i.
  induction Hitems as [|it items [Hpath Hit] _ IH]; intros i.
  - exists []. split; [done|]. intros p. split; [by intros ?%elem_of_nil|].
    by intros (it & ?%elem_of_nil & _).
  - destruct (IH (S i)) as (lines & Hlines & Hiff). clear IH.
    cbn [render_items]. rewrite Hlines. unfold item_leaf in *.
    destruct (is_dir (item_entry it)) eqn:Hd.
    + destruct (any_relevant_spec base (rglob (item_path it) (item_entry it)))
        as (b & Hb & _).
      { eapply Forall_impl; [apply rglob_below|]. intros f (rel & -> & _).
        rewrite Hpath, Hbase. exists (r0 ++ [entry_name (item_entry it)] ++ rel).
        by rewrite <- !app_assoc. }
      rewrite Hb. cbn [mbind option_bind]. rewrite Hpath in Hb. destruct b; cbn [negb].
      * set (is_last := Z.of_nat i =? Z.of_nat len - 1).
        destruct (Hit eq_refl (item_path it)
                    (prefix +:+ (if is_last then "    " else "│   ")))
          as (below & Hbelow & Hleaves).
        rewrite Hbelow. cbn [mbind option_bind]. eexists; split; [done|]. intros p.
        rewrite tree_files_cons. cbn [node_is_file].
        rewrite tree_files_app, elem_of_app, Hleaves, Hiff.
        rewrite Hpath.
        change (dir ++ [entry_name (item_entry it)])
          with (joinpath dir (entry_name (item_entry it))).
        rewrite exclusion_base_below. unfold joinpath. split.
        -- intros [(rel & -> & Hreach)|(it' & Hin & H)].
           ++ exists it. split; [apply list_elem_of_here|]. rewrite Hd.
              split; [done|]. exists rel. by rewrite <- app_assoc.
           ++ exists it'. split; [by apply list_elem_of_further | done].
        -- intros (it' & [->|Hin]%elem_of_cons & H).
           ++ left. rewrite Hd in H. destruct H as (_ & rel & -> & Hreach).
              exists rel. by rewrite <- app_assoc.
           ++ right. by exists it'.
      * exists lines. split; [done|]. intros p. rewrite Hiff. split.
        -- intros (it' & Hin & H). exists it'. split; [by apply list_elem_of_further | done].
        -- intros (it' & [->|Hin]%elem_of_cons & H); [|by exists it'].
           rewrite Hd in H. destruct H as [H _]. congruence.
    + cbn [mbind option_bind]. eexists; split; [done|]. intros p.
      rewrite tree_files_cons. cbn [node_is_file node_path].
      rewrite elem_of_cons, Hiff, Hpath. split.
      * intros [->|(it' & Hin & H)].
        -- exists it. split; [apply list_elem_of_here|]. by rewrite Hd.
        -- exists it'. split; [by apply list_elem_of_further | done].
      * intros (it' & [->|Hin]%elem_of_cons & H).
        -- left. by rewrite Hd in H.
        -- right. by exists it'.
Qed.

Lemma exclusion_base_prefix (dir : Path) (prefix : string) :
  exclusion_base dir prefix `prefix_of` dir.
Proof.
  unfold exclusion_base, parent. destruct (negb (Str.is_empty prefix)); [|done].
  destruct dir as [|x dir _] using rev_ind; [done|].
  rewrite removelast_last. by exists [x].
Qed.

Lemma generate_tree_body_spec (dir : Path) (prefix : string) (iterdir : list item) :
  Forall (item_ok dir) iterdir →
  ∃ nodes,
    generate_tree_body extensions excludes dir prefix iterdir = Some nodes
    ∧ ∀ p, p ∈ tree_files nodes ↔
        ∃ rel, p = dir ++ rel
               ∧ tree_reach (exclusion_base dir prefix) dir (item_entry <$> iterdir) rel.
Proof.
  intros Hiter. unfold generate_tree_body.
  set (base := exclusion_base dir prefix).
  set (decorate := λ p : item,
         ((negb (is_dir (item_entry p)), Str.lower (name (item_path p))), p)).
  set (items := (sort_by tree_key_le (decorate <$> iterdir)).*2).
  assert (Hperm : items ≡ₚ iterdir).
  { subst items. rewrite sort_by_Permutation, <- list_fmap_compose.
    by rewrite list_fmap_id. }
  assert (Hitems : Forall (item_ok dir) items) by by rewrite Hperm.
  destruct (filter_items_spec base items) as (filtered & Hfiltered & Hin).
  { eapply Forall_impl; [exact Hitems|]. intros it [-> _].
    apply (prefix_of_parent_joinpath dir). }
  rewrite Hfiltered. cbn [mbind option_bind].
  destruct (render_items_spec base dir prefix (length filtered) 0 filtered)
    as (nodes & Hnodes & Hleaves).
  { apply exclusion_base_prefix. }
  { apply Forall_forall. intros it [Hit _]%Hin.
    rewrite Forall_forall in Hitems. by apply Hitems. }
  exists nodes. split; [done|]. intros p. rewrite Hleaves. split.
  - intros (it & (Hit & Hex & Hext)%Hin & Hleaf).
    rewrite Forall_forall in Hitems. destruct (Hitems it Hit) as [Hpath _].
    assert (He : item_entry it ∈ item_entry <$> iterdir).
    { apply list_elem_of_fmap. exists it. by rewrite <- Hperm. }
    unfold item_leaf in Hleaf. rewrite Hpath in Hex, Hext.
    destruct (is_dir (item_entry it)) eqn:Hd.
    + destruct Hleaf as (Hrel & rel & -> & Hreach).
      exists (entry_name (item_entry it) :: rel). split; [done|].
      by eapply tree_reach_dir.
    + subst p. exists [entry_name (item_entry it)]. split; [done|].
      by eapply tree_reach_file.
  - intros (rel & -> & Hreach).
    inversion Hreach as [? ? ? e n He Hd Hn Hex Hext
                        |? ? ? e d rel' He Hd Hn Hex Hrel Hsub]; subst.
    + apply list_elem_of_fmap in He as (it & -> & Hit). rewrite <- Hperm in Hit.
      rewrite Forall_forall in Hitems. destruct (Hitems it Hit) as [Hpath _].
      exists it. split.
      * apply Hin. rewrite Hpath. by split_and!.
      * unfold item_leaf. by rewrite Hd.
    + apply list_elem_of_fmap in He as (it & -> & Hit). rewrite <- Hperm in Hit.
      rewrite Forall_forall in Hitems. destruct (Hitems it Hit) as [Hpath _].
      exists it. split.
      * apply Hin. rewrite Hpath. split_and!; [done..|].
        intros Hfile. by destruct (item_entry it).
      * unfold item_leaf. rewrite Hd. split; [done|]. by exists rel'.
Qed.

Lemma tree_exact (e : entry) :
  is_dir e = true →
  renderer_exact (tree extensions excludes e) (entry_listing e).
Proof.
  induction e as [n|n listing IH|n listing IH|n] using entry_ind_nested;
    [done | | | done].
  all: intros _ dir prefix; cbn [tree entry_listing].
  all: destruct (generate_tree_body_spec dir prefix
              ((λ c, {| item_path := joinpath dir (entry_name c);
                        item_entry := c;
                        item_tree := tree extensions excludes c |}) <$> listing))
    as (nodes & Hnodes & Hleaves);
    [rewrite Forall_fmap; eapply Forall_impl; [exact IH|];
     intros c Hc; by split|].
  all: exists nodes; split; [done|].
  all: by rewrite <- list_fmap_compose, list_fmap_id in Hleaves.
Qed.

Lemma generate_tree_nodes_exact (base_path : Path) (listing : list entry)
    (prefix : string) :
  ∃ nodes,
    generate_tree_nodes extensions excludes base_path listing prefix = Some nodes
    ∧ ∀ p, p ∈ tree_files nodes ↔
        ∃ rel, p = base_path ++ rel
               ∧ tree_reach (exclusion_base base_path prefix) base_path listing rel.
Proof. apply (tree_exact (Dir "" listing) eq_refl). Qed.

End TreeExact.

(** X8: [generate_tree] never raises: whatever the prefix, every path it
    hands to [should_exclude] lies below the base it hands over with
    it. *)
Theorem generate_tree_never_raises
    (extensions : gset string) (excludes : list string) (base_path : Path)
    (listing : list entry) (prefix : string) :
  ∃ lines nodes,
    generate_tree extensions excludes base_path listing prefix = Some lines
    ∧ generate_tree_nodes extensions excludes base_path listing prefix = Some nodes
    ∧ lines = line <$> nodes.
Proof.
  destruct (generate_tree_nodes_exact extensions excludes base_path listing prefix)
    as (nodes & Hnodes & _).
  exists (line <$> nodes), nodes. unfold generate_tree. by rewrite Hnodes.
Qed.

(** ** Collector against tree, in general *)

Lemma should_exclude_deeper_false
    (base rel1 rel2 : Path) (excludes : list string) :
  rel2 ≠ [] →
  should_exclude (base ++ rel1 ++ rel2) excludes base = Some false →
  should_exclude (base ++ rel1 ++ rel2) excludes (base ++ rel1) = Some false.
Proof.
  intros Hrel2 Hbase.
  destruct (should_exclude (base ++ rel1 ++ rel2) excludes (base ++ rel1))
    as [[]|] eqn:Hdeep; [| done |].
  - apply should_exclude_deeper_true in Hdeep; [congruence | done].
  - rewrite app_assoc, should_exclude_under in Hdeep. done.
Qed.

Lemma reach_tree_reach (base_path : Path) (extensions : gset string)
    (excludes : list string) (root : Path) (listing : list entry) (rel : Path) :
  reach base_path extensions excludes root listing rel →
  forallb no_special listing = true →
  ∀ r0 r1, root = r0 ++ r1 →
    tree_reach extensions excludes (base_path ++ r0) (base_path ++ root) listing rel.
Proof.
  induction 1 as [root listing e n Hin Hnd Hn Hex Hext
                 |root listing d sub rel Hin Hex Hsub IH];
    intros Hreg r0 r1 ->.
  - eapply tree_reach_file; [done | done | done | | intros _; by rewrite <- app_assoc].
    rewrite <- !app_assoc in *. by apply should_exclude_deeper_false; [destruct r1|].
  - assert (Hregsub : forallb no_special sub = true).
    { by apply (forallb_elem_of _ _ _ Hreg Hin). }
    assert (Hd : should_exclude ((base_path ++ r0 ++ r1) ++ [d]) excludes (base_path ++ r0)
                 = Some false).
    { rewrite <- !app_assoc in *. by apply should_exclude_deeper_false; [destruct r1|]. }
    eapply tree_reach_dir with (e := Dir d sub); [done | done | done | done | |].
    + pose proof (reach_nonempty _ _ _ _ _ _ Hsub) as Hne.
      apply reach_iff in Hsub as (Hfile & Hanc & Hsuf).
      destruct (any_relevant_spec extensions excludes (base_path ++ r0)
                  (rglob ((base_path ++ r0 ++ r1) ++ [d]) (Dir d sub)))
        as (b & Hb & Hiff).
      { eapply Forall_impl; [apply rglob_below|]. intros f (rel' & -> & _).
        exists (r1 ++ [d] ++ rel'). by rewrite <- !app_assoc. }
      rewrite Hb. f_equal. apply Hiff.
      exists (((base_path ++ r0 ++ r1) ++ [d]) ++ rel). split_and!.
      * by apply (rglob_file_at sub rel Hfile Hregsub _ (Dir d sub)).
      * specialize (Hanc rel [] (eq_sym (app_nil_r rel)) Hne).
        rewrite <- !app_assoc in *.
        apply should_exclude_deeper_false; [|done]. by destruct r1.
      * by rewrite <- !app_assoc in *.
    + specialize (IH Hregsub (r0 ++ r1) [d] eq_refl). by rewrite <- !app_assoc in *.
Qed.

(** X9: when every entry below the base path that is not a directory is
    a regular file (no FIFO, socket, device or dangling symbolic link),
    every path that [collect_files] returns is displayed as a leaf by
    [generate_tree]; neither traversal raises.  Symbolic links to
    directories may be present: the collector does not walk into them,
    the renderer does. *)
Theorem collected_files_are_tree_leaves
    (base_path : Path) (extensions : gset string) (excludes : list string)
    (listing : list entry) :
  forallb no_special listing = true →
  ∃ files nodes,
    collect_files base_path extensions excludes listing = Some files
    ∧ generate_tree_nodes extensions excludes base_path listing "" = Some nodes
    ∧ files ⊆ tree_files nodes.
Proof.
  intros Hreg.
  destruct (collect_files_exact base_path extensions excludes listing)
    as (files & Hfiles & Hreach).
  destruct (generate_tree_nodes_exact extensions excludes base_path listing "")
    as (nodes & Hnodes & Hleaves).
  exists files, nodes. split_and!; [done..|].
  intros p (rel & -> & H)%Hreach. apply Hleaves. exists rel. split; [done|].
  pose proof (reach_tree_reach _ _ _ _ _ _ H Hreg [] [] eq_refl) as H'.
  by rewrite !app_nil_r in H'.
Qed.

Lemma collected_files_are_tree_leaves_witness :
  ∃ files nodes,
    collect_files ["home"; "proj"] {[ ".py" ]} DEFAULT_EXCLUDES
      [Dir "src" [File "main.py"; Link "lib" [File "util.py"]]; File "setup.py"]
    = Some files
    ∧ generate_tree_nodes {[ ".py" ]} DEFAULT_EXCLUDES ["home"; "proj"]
        [Dir "src" [File "main.py"; Link "lib" [File "util.py"]]; File "setup.py"] ""
      = Some nodes
    ∧ files ⊆ tree_files nodes.
Proof.
  apply (collected_files_are_tree_leaves ["home"; "proj"] {[ ".py" ]} DEFAULT_EXCLUDES
           [Dir "src" [File "main.py"; Link "lib" [File "util.py"]]; File "setup.py"]).
  reflexivity.
Defined.

(** *** Patterns without a path separator *)

Lemma prefix_slash_free (p a b : string) :
  Str.contains "/" p = false →
  String.prefix p (a +:+ String "/" b) = true → String.prefix p a = true.
Proof.
  revert a. induction p as [|c p IH]; intros a Hp; [intros _; apply prefix_empty|].
  cbn [Str.contains String.prefix] in Hp. apply orb_false_iff in Hp as [Hc Hp].
  destruct a as [|x a].
  - rewrite app_empty. cbn [String.prefix].
    destruct (ascii_dec c "/") as [->|]; [|done]. by rewrite prefix_empty in Hc.
  - rewrite app_String. cbn [String.prefix].
    destruct (ascii_dec c x); [by apply IH | done].
Qed.

Lemma contains_split (p a b : string) :
  Str.contains "/" p = false →
  Str.contains p (a +:+ String "/" b) = true →
  Str.contains p a = true ∨ Str.contains p b = true.
Proof.
  intros Hp. induction a as [|x a IH].
  - rewrite app_empty. cbn [Str.contains].
    intros [H|H]%orb_true_iff; [|by right].
    left. apply orb_true_iff. left.
    by apply (prefix_slash_free p "" b).
  - rewrite app_String. cbn [Str.contains].
    intros [H|H]%orb_true_iff.
    + left. apply orb_true_iff. left. rewrite <- app_String in H.
      by apply (prefix_slash_free p (String x a) b).
    + destruct (IH H) as [Ha|Hb]; [|by right].
      left. apply orb_true_iff. by right.
Qed.

(** A pattern without ["/"] that occurs in a path string occurs in one
    of the components. *)
Lemma contains_join_slash_free (p : string) (l : list string) :
  Str.contains "/" p = false → l ≠ [] →
  Str.contains p (Str.join "/" l) = true →
  ∃ x, x ∈ l ∧ Str.contains p x = true.
Proof.
  intros Hp. induction l as [|x l IH]; [done|]. intros _.
  destruct l as [|y l].
  - intros H. exists x. split; [apply list_elem_of_here | done].
  - cbn [Str.join]. intros [H|H]%contains_split; [| |done].
    + exists x. split; [apply list_elem_of_here | done].
    + destruct (IH ltac:(done) H) as (z & Hz & Hc).
      exists z. split; [by apply list_elem_of_further | done].
Qed.

Lemma contains_join_last (p x : string) (l : list string) :
  Str.contains p x = true → Str.contains p (Str.join "/" (l ++ [x])) = true.
Proof.
  intros Hp. destruct l as [|y l]; [done|].
  rewrite join_app by done. by apply contains_app_r, contains_app_r.
Qed.

(** With patterns free of ["/"], an entry that passes the test relative
    to any directory above it, below directories that pass the test
    relative to the base, passes the test relative to the base. *)
Lemma should_exclude_lift (base r0 r1 : Path) (n : string) (excludes : list string) :
  Forall (λ pattern, Str.contains "/" pattern = false) excludes →
  (∀ a b, r0 ++ r1 = a ++ b → a ≠ [] →
     should_exclude (base ++ a) excludes base = Some false) →
  should_exclude ((base ++ r0 ++ r1) ++ [n]) excludes (base ++ r0) = Some false →
  should_exclude (base ++ (r0 ++ r1) ++ [n]) excludes base = Some false.
Proof.
  intros Hfree Hanc Hdeep.
  rewrite should_exclude_below by (by destruct (r0 ++ r1)).
  f_equal. apply not_true_is_false. intros (pattern & Hin & Hm)%existsb_exists.
  assert (Hp : Str.contains "/" pattern = false).
  { rewrite Forall_forall in Hfree. by apply Hfree, list_elem_of_In. }
  replace ((base ++ r0 ++ r1) ++ [n]) with ((base ++ r0) ++ r1 ++ [n]) in Hdeep
    by (by rewrite <- !app_assoc).
  rewrite should_exclude_below in Hdeep by (by destruct r1).
  injection Hdeep as Hdeep. apply not_true_iff_false in Hdeep. apply Hdeep.
  apply existsb_exists. exists pattern. split; [done|].
  unfold pattern_matches_below in *. rewrite !name_app in * by done.
  destruct (Str.startswith pattern "*") eqn:Hstar; [done|].
  rewrite str_path_nonempty in Hm by (by destruct (r0 ++ r1)).
  apply contains_join_slash_free in Hm as (x & Hx & Hc);
    [| done | by destruct (r0 ++ r1)].
  rewrite str_path_nonempty by (by destruct r1).
  apply elem_of_app in Hx as [Hx| ->%list_elem_of_singleton];
    [|by apply contains_join_last].
  exfalso. apply list_elem_of_split in Hx as (a & b & Hab).
  specialize (Hanc (a ++ [x]) b). rewrite <- app_assoc in Hanc.
  specialize (Hanc Hab ltac:(by destruct a)).
  rewrite should_exclude_below in Hanc by (by destruct a).
  injection Hanc as Hanc. apply not_true_iff_false in Hanc. apply Hanc.
  apply existsb_exists. exists pattern. split; [done|].
  unfold pattern_matches_below. rewrite Hstar.
  rewrite str_path_nonempty by (by destruct a). by apply contains_join_last.
Qed.

Lemma tree_reach_reach (base_path : Path) (extensions : gset string)
    (excludes : list string) (base dir : Path) (listing : list entry) (rel : Path) :
  Forall (λ pattern, Str.contains "/" pattern = false) excludes →
  tree_reach extensions excludes base dir listing rel →
  forallb plain listing = true →
  ∀ r0 r1, base = base_path ++ r0 → dir = base_path ++ r0 ++ r1 →
    (∀ a b, r0 ++ r1 = a ++ b → a ≠ [] →
       should_exclude (base_path ++ a) excludes base_path = Some false) →
    reach base_path extensions excludes (r0 ++ r1) listing rel.
Proof.
  intros Hfree.
  induction 1 as [base dir listing e n Hin Hnd Hn Hex Hext
                 |base dir listing e d rel Hin Hd Hn Hex Hrel Hsub IH];
    intros Hplain r0 r1 -> -> Hanc.
  - assert (Hf : is_file e = true).
    { pose proof (forallb_elem_of _ _ _ Hplain Hin) as Hp. by destruct e. }
    specialize (Hext Hf).
    eapply reach_file; [done | done | done | by apply should_exclude_lift |].
    by rewrite <- !app_assoc in *.
  - assert (He : ∃ sub, e = Dir d sub ∧ forallb plain sub = true).
    { pose proof (forallb_elem_of _ _ _ Hplain Hin) as Hp.
      destruct e as [m|m sub|m sub|m]; try done.
      simpl in Hn. subst m. by exists sub. }
    destruct He as (sub & -> & Hplainsub). cbn [entry_listing] in *.
    assert (Hd' : should_exclude (base_path ++ (r0 ++ r1) ++ [d]) excludes base_path
                  = Some false) by by apply should_exclude_lift.
    eapply reach_dir; [done | done |].
    apply (IH Hplainsub (r0 ++ r1) [d]); [by rewrite <- ?app_assoc.. |].
    intros a b Hab Ha.
    destruct b as [|y b _] using rev_ind.
    + rewrite app_nil_r in Hab. by subst a.
    + rewrite app_assoc in Hab. apply app_inj_tail in Hab as [Hab _].
      by apply (Hanc a b).
Qed.

Lemma plain_listing_no_special (listing : list entry) :
  forallb plain listing = true → forallb no_special listing = true.
Proof.
  intros H. apply forallb_forall. intros c Hc. apply plain_no_special.
  rewrite forallb_forall in H. by apply H.
Qed.

(** X10: in a tree of directories and regular files only (no symbolic
    link to a directory, no FIFO, socket, device or dangling link), when
    no exclude pattern contains ["/"], as is the case of the built-in
    patterns, [generate_tree] displays as leaves exactly the files that
    [collect_files] returns. *)
Theorem tree_leaves_are_collected_files_without_slash
    (base_path : Path) (extensions : gset string) (excludes : list string)
    (listing : list entry) :
  Forall (λ pattern, Str.contains "/" pattern = false) excludes →
  forallb plain listing = true →
  ∃ files nodes,
    collect_files base_path extensions excludes listing = Some files
    ∧ generate_tree_nodes extensions excludes base_path listing "" = Some nodes
    ∧ ∀ p, p ∈ files ↔ p ∈ tree_files nodes.
Proof.
  intros Hfree Hplain.
  destruct (collect_files_exact base_path extensions excludes listing)
    as (files & Hfiles & Hreach).
  destruct (generate_tree_nodes_exact extensions excludes base_path listing "")
    as (nodes & Hnodes & Hleaves).
  exists files, nodes. split_and!; [done..|].
  intros p. rewrite Hreach, Hleaves. split.
  - intros (rel & -> & H). exists rel. split; [done|].
    pose proof (reach_tree_reach _ _ _ _ _ _ H (plain_listing_no_special _ Hplain)
                  [] [] eq_refl) as H'.
    by rewrite !app_nil_r in H'.
  - intros (rel & -> & H). exists rel. split; [done|].
    apply (tree_reach_reach base_path _ _ _ _ _ _ Hfree H Hplain [] []).
    + by rewrite app_nil_r.
    + by rewrite !app_nil_r.
    + intros a b Hab Ha. symmetry in Hab. by apply app_eq_nil in Hab as [-> _].
Qed.

Lemma tree_leaves_are_collected_files_without_slash_witness :
  Forall (λ pattern, Str.contains "/" pattern = false) DEFAULT_EXCLUDES
  ∧ forallb plain [Dir "src" [Dir "app" [File "gen.py"; File "main.py"]]] = true
  ∧ ∃ files nodes,
      collect_files ["home"; "proj"] {[ ".py" ]} DEFAULT_EXCLUDES
        [Dir "src" [Dir "app" [File "gen.py"; File "main.py"]]] = Some files
      ∧ generate_tree_nodes {[ ".py" ]} DEFAULT_EXCLUDES ["home"; "proj"]
          [Dir "src" [Dir "app" [File "gen.py"; File "main.py"]]] "" = Some nodes
      ∧ ∀ p, p ∈ files ↔ p ∈ tree_files nodes.
Proof.
  assert (H : Forall (λ pattern, Str.contains "/" pattern = false) DEFAULT_EXCLUDES).
  { unfold DEFAULT_EXCLUDES. repeat (constructor; [reflexivity|]). constructor. }
  split; [exact H|]. split; [reflexivity|].
  apply (tree_leaves_are_collected_files_without_slash ["home"; "proj"] {[ ".py" ]}
           DEFAULT_EXCLUDES [Dir "src" [Dir "app" [File "gen.py"; File "main.py"]]] H).
  reflexivity.
Defined.

(** ** Reading a file *)

(** X11: [latin-1] decodes every byte sequence; under that assumption
    [read_file_content] returns the text decoded as [utf-8] or, failing
    that, as [latin-1], and neither tries [cp1252] nor returns its error
    message: what [read_text] does for [cp1252] has no influence. *)
Theorem read_file_content_stops_at_latin1
    (read_text read_text' : string → read_result) :
  read_text "latin-1" ≠ UnicodeDecodeError →
  read_text' "utf-8" = read_text "utf-8" →
  read_text' "latin-1" = read_text "latin-1" →
  read_file_content read_text' = read_file_content read_text
  ∧ (read_text "utf-8" = Decoded (read_file_content read_text)
     ∨ (read_text "utf-8" = UnicodeDecodeError
        ∧ read_text "latin-1" = Decoded (read_file_content read_text))).
Proof.
  intros Hlatin Hutf8 Hlatin'. unfold read_file_content. cbn [read_loop].
  rewrite Hutf8, Hlatin'.
  destruct (read_text "utf-8") as [text|]; [by split; [|left]|].
  destruct (read_text "latin-1") as [text|]; [|done].
  split; [done|]. by right.
Qed.

Lemma read_file_content_stops_at_latin1_witness :
  read_file_content
    (λ encoding, if String.eqb encoding "latin-1" then Decoded "caf" else UnicodeDecodeError)
  = read_file_content
      (λ encoding, if String.eqb encoding "utf-8" then UnicodeDecodeError else Decoded "caf").
Proof.
  apply (read_file_content_stops_at_latin1
           (λ encoding, if String.eqb encoding "utf-8" then UnicodeDecodeError
                        else Decoded "caf")
           (λ encoding, if String.eqb encoding "latin-1" then Decoded "caf"
                        else UnicodeDecodeError)).
  - discriminate.
  - reflexivity.
  - reflexivity.
Defined.

(** ** The default output path *)

Lemma string_length_app (a b : string) :
  String.length (a +:+ b) = (String.length a + String.length b)%nat.
Proof. induction a as [|c a IH]; [done|]. rewrite app_String. simpl. by rewrite IH. Qed.

Lemma rfind_from_app (c : ascii) (a b : string) (i last : Z) :
  Str.rfind_from c (a +:+ b) i last
  = Str.rfind_from c b (i + Z.of_nat (String.length a)) (Str.rfind_from c a i last).
Proof.
  revert i last. induction a as [|x a IH]; intros i last.
  - rewrite app_empty. simpl. by rewrite Z.add_0_r.
  - rewrite app_String. cbn [Str.rfind_from String.length]. rewrite IH.
    f_equal. lia.
Qed.

Lemma slice_from_app (a b : string) (k : nat) :
  Str.slice_from (String.length a + k) (a +:+ b) = Str.slice_from k b.
Proof. induction a as [|x a IH]; [done|]. rewrite app_String. exact IH. Qed.

Lemma contains_char_app (c : ascii) (a b : string) :
  Str.contains (String c "") (a +:+ b)
  = Str.contains (String c "") a || Str.contains (String c "") b.
Proof.
  induction a as [|x a IH].
  - rewrite app_empty. cbn [Str.contains String.prefix]. by rewrite orb_false_r.
  - rewrite app_String. cbn [Str.contains String.prefix]. rewrite IH.
    destruct (ascii_dec c x); [by rewrite !prefix_empty|]. by rewrite !orb_false_l.
Qed.

(** [safe_name] leaves neither a dot nor a separator. *)
Lemma safe_name_chars (project_name : string) (i last : Z) :
  Str.rfind_from "." (safe_name project_name) i last = last
  ∧ Str.contains "/" (safe_name project_name) = false
  ∧ String.length (safe_name project_name) = String.length project_name.
Proof.
  revert i last. induction project_name as [|c s IH]; intros i last; [done|].
  cbn [safe_name Str.rfind_from Str.contains String.prefix String.length].
  destruct (IH (i + 1) last) as (_ & Hslash & Hlen).
  set (c' := if Str.isalnum c || Ascii.eqb c "-" || Ascii.eqb c "_" then c else "_"%char).
  assert (Hc : Ascii.eqb c' "." = false ∧ c' ≠ "/"%char).
  { subst c'. destruct (Str.isalnum c || Ascii.eqb c "-" || Ascii.eqb c "_") eqn:Hsafe;
      [|done].
    split; [apply Ascii.eqb_neq|]; intros ->; discriminate Hsafe. }
  destruct Hc as [Hdot Hsl]. rewrite Hdot. split_and!.
  - apply IH.
  - destruct (ascii_dec "/" c') as [<-|_]; [done|]. by rewrite Hslash.
  - by rewrite Hlen.
Qed.

Lemma default_output_suffix (base_path : Path) (project_name : string) :
  suffix (default_output_path base_path project_name) = ".md".
Proof.
  unfold suffix, default_output_path. rewrite name_joinpath.
  unfold Str.rfind. rewrite rfind_from_app.
  rewrite (proj1 (safe_name_chars project_name 0 (-1))).
  rewrite string_length_app.
  set (n := String.length (safe_name project_name)).
  replace (Str.rfind_from "." "_code.md" (0 + Z.of_nat n) (-1)) with (Z.of_nat n + 5)
    by (cbn [Str.rfind_from Ascii.eqb Bool.eqb]; lia).
  change (String.length "_code.md") with 8%nat.
  replace ((0 <? Z.of_nat n + 5) && (Z.of_nat n + 5 <? Z.of_nat (n + 8) - 1))
    with true by (symmetry; apply andb_true_iff; split; apply Z.ltb_lt; lia).
  replace (Z.to_nat (Z.of_nat n + 5)) with (n + 5)%nat by lia.
  subst n. by rewrite slice_from_app.
Qed.

(** X12: the default output file is a Markdown file directly inside the
    base directory, whatever the project name; so once it exists, a run
    that selects [.md] collects it like any other file unless a pattern
    excludes it. *)
Theorem default_output_is_collected_again
    (base_path : Path) (project_name : string) (extensions : gset string)
    (excludes : list string) (listing : list entry) :
  ".md" ∈ extensions →
  should_exclude (default_output_path base_path project_name) excludes base_path
  = Some false →
  File (name (default_output_path base_path project_name)) ∈ listing →
  parent (default_output_path base_path project_name) = base_path
  ∧ suffix (default_output_path base_path project_name) = ".md"
  ∧ Str.contains "/" (name (default_output_path base_path project_name)) = false
  ∧ ∃ files,
      collect_files base_path extensions excludes listing = Some files
      ∧ default_output_path base_path project_name ∈ files.
Proof.
  intros Hmd Hex Hin. split_and!.
  - apply removelast_last.
  - apply default_output_suffix.
  - unfold default_output_path. rewrite name_joinpath.
    destruct (Str.contains "/" (safe_name project_name +:+ "_code.md")) eqn:Hc; [|done].
    rewrite contains_char_app in Hc. apply orb_true_iff in Hc as [Hc|Hc]; [|done].
    by rewrite (proj1 (proj2 (safe_name_chars project_name 0 0))) in Hc.
  - destruct (collect_files_exact base_path extensions excludes listing)
      as (files & Hfiles & Hreach).
    exists files. split; [done|]. apply Hreach.
    unfold default_output_path in *. rewrite name_joinpath in Hin.
    eexists [_]. split; [done|].
    eapply reach_file; [exact Hin | done | done | done |].
    change (base_path ++ [] ++ [?x]) with (joinpath base_path x).
    fold (default_output_path base_path project_name).
    by rewrite default_output_suffix.
Qed.

Lemma default_output_is_collected_again_witness :
  ∃ files,
    collect_files ["home"; "proj"] {[ ".md" ]} DEFAULT_EXCLUDES
      [File "my_proj_code.md"; File "README.md"] = Some files
    ∧ default_output_path ["home"; "proj"] "my proj" ∈ files.
Proof.
  apply (default_output_is_collected_again ["home"; "proj"] "my proj" {[ ".md" ]}
           DEFAULT_EXCLUDES [File "my_proj_code.md"; File "README.md"]).
  - by apply elem_of_singleton.
  - reflexivity.
  - apply list_elem_of_here.
Defined.

(** ** The composed document *)

Lemma toc_entries_under (base_path : Path) (rels : list Path) :
  ∃ toc, toc_entries base_path ((base_path ++.) <$> rels) = Some toc
         ∧ length toc = length rels.
Proof.
  unfold toc_entries.
  destruct (mapM (toc_entry base_path) ((base_path ++.) <$> rels)) as [toc|] eqn:Htoc.
  - exists toc. split; [done|]. apply length_mapM in Htoc. by rewrite length_fmap in Htoc.
  - apply mapM_None in Htoc. apply Exists_exists in Htoc as (p & Hp & Hnone).
    apply list_elem_of_fmap in Hp as (rel & -> & _).
    unfold toc_entry in Hnone. by rewrite relative_to_app in Hnone.
Qed.

Lemma file_sections_under (read_text : Path → string → read_result)
    (base_path : Path) (rels : list Path) :
  ∃ sections,
    mapM (file_section read_text base_path) ((base_path ++.) <$> rels) = Some sections
    ∧ length (concat sections) = (6 * length rels)%nat.
Proof.
  destruct (mapM (file_section read_text base_path) ((base_path ++.) <$> rels))
    as [sections|] eqn:Hs.
  - exists sections. split; [done|]. apply mapM_Some_1 in Hs.
    apply Forall2_fmap_l in Hs. clear -Hs.
    induction Hs as [|rel section rels sections Hsec _ IH]; [done|].
    cbv beta delta [compose file_section] in Hsec. rewrite relative_to_app in Hsec.
    injection Hsec as <-. cbn [concat]. rewrite length_app, IH. simpl. lia.
  - apply mapM_None in Hs. apply Exists_exists in Hs as (p & Hp & Hnone).
    apply list_elem_of_fmap in Hp as (rel & -> & _).
    unfold file_section in Hnone. by rewrite relative_to_app in Hnone.
Qed.

Lemma generate_markdown_collected
    (now : string) (read_text : Path → string → read_result)
    (base_path : Path) (extensions : gset string) (excludes : list string)
    (project_name : string) (listing : list entry) :
  ∃ files tree lines,
    collect_files base_path extensions excludes listing = Some files
    ∧ generate_tree extensions excludes base_path listing "" = Some tree
    ∧ generate_markdown_lines now read_text base_path files extensions excludes
        project_name listing = Some lines
    ∧ generate_markdown now read_text base_path files extensions excludes
        project_name listing = Some (Str.join Str.LF lines)
    ∧ length lines = (23 + 7 * length files + length tree)%nat.
Proof.
  destruct (collect_files_spec base_path extensions excludes listing)
    as (rels & Hfiles & _).
  destruct (generate_tree_nodes_exact extensions excludes base_path listing "")
    as (nodes & Hnodes & _).
  destruct (toc_entries_under base_path rels) as (toc & Htoc & Hlt).
  destruct (file_sections_under read_text base_path rels) as (sections & Hsec & Hls).
  assert (Htree : generate_tree extensions excludes base_path listing ""
                  = Some (line <$> nodes)).
  { unfold generate_tree. by rewrite Hnodes. }
  eexists _, _, _. split_and!; [exact Hfiles | exact Htree | | |].
  - unfold generate_markdown_lines. rewrite Htoc, Htree. cbn [mbind option_bind].
    rewrite Hsec. reflexivity.
  - unfold generate_markdown, generate_markdown_lines.
    rewrite Htoc, Htree. cbn [mbind option_bind]. rewrite Hsec. reflexivity.
  - rewrite !length_app, Hlt, Hls, !length_fmap. simpl. lia.
Qed.


(** ** The command line *)

(** [args] with other values for [--no-tree] and [--verbose]. *)
Definition with_flags (no_tree verbose : bool) (args : Args) : Args :=
  {| args_directory := args_directory args;
     args_types := args_types args;
     args_extensions := args_extensions args;
     args_excludes := args_excludes args;
     args_output := args_output args;
     args_name := args_name args;
     args_no_tree := no_tree;
     args_list_types := args_list_types args;
     args_no_default_excludes := args_no_default_excludes args;
     args_verbose := verbose |}.

(** An outcome without what was printed on the way. *)
Definition silent (o : outcome) : outcome :=
  match o with
  | Written output_path markdown _ => Written output_path markdown []
  | Exit code => Exit code
  | Raised => Raised
  end.

(** The line printed for a file with [--verbose]. *)
Definition listed_line (rel : Path) : string := "  - " +:+ str_path rel.

Lemma verbose_listing_under (base_path : Path) (rels : list Path) :
  verbose_listing base_path ((base_path ++.) <$> rels) = Some (listed_line <$> rels).
Proof.
  unfold verbose_listing. apply mapM_Some.
  apply Forall2_fmap, Forall_Forall2_diag, Forall_forall.
  intros rel _. simpl. by rewrite relative_to_app.
Qed.

(** What [main] does once the command line is accepted and the
    directory is found. *)
Lemma main_directory (now : string) (read_text : Path → string → read_result)
    (args : Args) (listing : list entry) (extensions : gset string) :
  args_list_types args = false →
  negb (bool_decide (is_Some (given (args_types args))))
  && bool_decide (args_extensions args = []) = false →
  resolve_extensions args = Some extensions →
  ∃ rels tree markdown,
    collect_files (args_directory args) extensions (resolve_excludes args) listing
    = Some ((args_directory args ++.) <$> rels)
    ∧ generate_tree extensions (resolve_excludes args) (args_directory args) listing ""
      = Some tree
    ∧ generate_markdown now read_text (args_directory args)
        ((args_directory args ++.) <$> rels) extensions
        (resolve_excludes args) (resolve_project_name args) listing
      = Some markdown
    ∧ main now read_text args (Directory listing)
      = if bool_decide (rels = []) then Exit 1
        else Written (resolve_output_path args) markdown
               (if args_verbose args then listed_line <$> rels else []).
Proof.
  intros Hl Hv He.
  destruct (collect_files_spec (args_directory args) extensions (resolve_excludes args)
              listing) as (rels & Hfiles & _).
  destruct (generate_markdown_collected now read_text (args_directory args) extensions
              (resolve_excludes args) (resolve_project_name args) listing)
    as (files & tree & lines & Hfiles' & Htree & _ & Hmd & _).
  assert (files = (args_directory args ++.) <$> rels) as -> by congruence.
  exists rels, tree, (Str.join Str.LF lines). split_and!; [done..|].
  unfold main. rewrite Hl, Hv, He, Hfiles.
  destruct rels as [|rel rels]; [done|].
  rewrite bool_decide_eq_false_2 by done.
  pose proof (verbose_listing_under (args_directory args) (rel :: rels)) as Hlist.
  remember ((args_directory args ++.) <$> rel :: rels) as files eqn:Hf.
  destruct files as [|f fs]; [done|].
  cbv beta iota zeta. rewrite Hlist, Hmd.
  by destruct (args_verbose args).
Qed.

(** X14: no call of [relative_to] in a run of [main] raises
    [ValueError]: not in [should_exclude], not for the sort key, not for
    the list printed with [--verbose], not in [generate_markdown].  When
    [main] writes a document, the directory exists, at least one file
    was collected, and the document is [generate_markdown] of the
    collected files, tree included, written to [args.output] or to the
    default path; with [--verbose] one line per collected file was
    printed before.  Apart from that list, the outcome is the same for
    every value of [--no-tree] and [--verbose]. *)
Theorem main_outcome
    (now : string) (read_text : Path → string → read_result)
    (args : Args) (found : stat) :
  main now read_text args found ≠ Raised
  ∧ (∀ output_path markdown listed,
       main now read_text args found = Written output_path markdown listed →
       args_list_types args = false
       ∧ output_path = resolve_output_path args
       ∧ ∃ listing extensions rels tree,
           found = Directory listing
           ∧ resolve_extensions args = Some extensions
           ∧ collect_files (args_directory args) extensions (resolve_excludes args) listing
             = Some ((args_directory args ++.) <$> rels)
           ∧ rels ≠ []
           ∧ generate_tree extensions (resolve_excludes args) (args_directory args)
               listing "" = Some tree
           ∧ generate_markdown now read_text (args_directory args)
               ((args_directory args ++.) <$> rels) extensions
               (resolve_excludes args) (resolve_project_name args) listing
             = Some markdown
           ∧ listed = if args_verbose args then listed_line <$> rels else [])
  ∧ (∀ no_tree verbose,
       silent (main now read_text (with_flags no_tree verbose args) found)
       = silent (main now read_text args found)).
Proof.
  destruct (args_list_types args) eqn:Hl.
  { unfold main. cbn [with_flags args_list_types]. by rewrite Hl. }
  destruct (negb (bool_decide (is_Some (given (args_types args))))
            && bool_decide (args_extensions args = [])) eqn:Hv.
  { unfold main. cbn [with_flags args_list_types args_types args_extensions].
    by rewrite Hl, Hv. }
  destruct found as [| |listing].
  1, 2: unfold main; cbn [with_flags args_list_types args_types args_extensions];
    by rewrite Hl, Hv.
  destruct (resolve_extensions args) as [extensions|] eqn:He.
  - destruct (main_directory now read_text args listing extensions Hl Hv He)
      as (rels & tree & markdown & Hfiles & Htree & Hmd & Hmain).
    split_and!.
    + rewrite Hmain. by destruct (bool_decide (rels = [])).
    + intros output_path markdown' listed. rewrite Hmain.
      destruct (bool_decide (rels = [])) eqn:Hrels; [done|].
      apply bool_decide_eq_false in Hrels. intros [= <- <- <-].
      split_and!; [done..|]. by exists listing, extensions, rels, tree.
    + intros no_tree verbose.
      destruct (main_directory now read_text (with_flags no_tree verbose args) listing
                  extensions Hl Hv He)
        as (rels' & tree' & markdown' & Hfiles' & _ & Hmd' & Hmain').
      change (args_directory (with_flags no_tree verbose args))
        with (args_directory args) in *.
      change (resolve_excludes (with_flags no_tree verbose args))
        with (resolve_excludes args) in *.
      change (resolve_project_name (with_flags no_tree verbose args))
        with (resolve_project_name args) in *.
      change (resolve_output_path (with_flags no_tree verbose args))
        with (resolve_output_path args) in *.
      assert (rels' = rels) as ->.
      { rewrite Hfiles in Hfiles'. injection Hfiles' as Heq.
        by apply (inj (fmap (args_directory args ++.))) in Heq. }
      assert (markdown' = markdown) as -> by congruence.
      rewrite Hmain, Hmain'. by destruct (bool_decide (rels = [])).
  - unfold main. cbn [with_flags args_list_types args_types args_extensions].
    change (resolve_extensions (with_flags ?a ?b args)) with (resolve_extensions args).
    by rewrite Hl, Hv, He.
Qed.

(** *** Project types and extensions *)

Lemma lower_char_idem (c : ascii) : Str.lower_char (Str.lower_char c) = Str.lower_char c.
Proof. destruct c as [[] [] [] [] [] [] [] []]; reflexivity. Qed.

Lemma lower_idem (s : string) : Str.lower (Str.lower s) = Str.lower s.
Proof.
  induction s as [|c s IH]; [done|]. cbn [Str.lower]. by rewrite lower_char_idem, IH.
Qed.



Lemma add_types_None (extensions : gset string) (type_names : list string) :
  add_types extensions type_names = None
  ↔ ∃ n, n ∈ type_names ∧ PROJECT_TYPES !! Str.lower (Str.strip n) = None.
Proof.
  revert extensions. induction type_names as [|n rest IH]; intros extensions.
  - split; [done | by intros (n & ?%elem_of_nil & _)].
  - cbn [add_types].
    destruct (PROJECT_TYPES !! Str.lower (Str.strip n)) as [config|] eqn:Hn.
    + rewrite IH. split.
      * intros (m & Hm & H). exists m. split; [by apply list_elem_of_further | done].
      * intros (m & [->|Hm]%elem_of_cons & H); [congruence | by exists m].
    + split; [|done]. intros _. exists n. split; [apply list_elem_of_here | done].
Qed.

Lemma add_types_Some (extensions extensions' : gset string) (type_names : list string) :
  add_types extensions type_names = Some extensions' →
  ∀ ext, ext ∈ extensions'
    ↔ ext ∈ extensions
      ∨ ∃ n config, n ∈ type_names
          ∧ PROJECT_TYPES !! Str.lower (Str.strip n) = Some config
          ∧ ext ∈ pt_extensions config.
Proof.
  revert extensions. induction type_names as [|n rest IH]; intros extensions.
  - intros [= <-] ext. split; [by left|].
    by intros [?|(n & config & ?%elem_of_nil & _)].
  - cbn [add_types].
    destruct (PROJECT_TYPES !! Str.lower (Str.strip n)) as [config|] eqn:Hn; [|done].
    intros H ext. rewrite (IH _ H ext), elem_of_union, elem_of_list_to_set. split.
    + intros [[Hext|Hext]|(m & config' & Hm & Hc & Hext)].
      * by left.
      * right. exists n, config. split_and!; [apply list_elem_of_here | done..].
      * right. exists m, config'. split_and!; [by apply list_elem_of_further | done..].
    + intros [Hext|(m & config' & [->|Hm]%elem_of_cons & Hc & Hext)].
      * by left; left.
      * left; right. congruence.
      * right. by exists m, config'.
Qed.

Lemma split_nonempty (sep : ascii) (s : string) : Str.split sep s ≠ [].
Proof.
  induction s as [|c s IH]; [done|]. cbn [Str.split].
  destruct (Ascii.eqb c sep); [done|]. by destruct (Str.split sep s).
Qed.

Lemma split_trailing (sep : ascii) (s : string) :
  Str.split sep (s +:+ String sep "") = Str.split sep s ++ [""].
Proof.
  induction s as [|c s IH].
  - rewrite app_empty. cbn [Str.split]. by rewrite Ascii.eqb_refl.
  - rewrite app_String. cbn [Str.split]. rewrite IH.
    destruct (Ascii.eqb c sep); [done|].
    pose proof (split_nonempty sep s). by destruct (Str.split sep s).
Qed.

(** X15: the loop over the project types exits with status 1 exactly
    when one of the names, stripped and lower-cased, is not a project
    type, and otherwise adds exactly the extensions of the named types;
    in particular a type list that ends with a comma is rejected. *)
Theorem add_types_outcome
    (extensions : gset string) (type_names : list string) (types : string) :
  (add_types extensions type_names = None
   ↔ ∃ n, n ∈ type_names ∧ PROJECT_TYPES !! Str.lower (Str.strip n) = None)
  ∧ (∀ extensions', add_types extensions type_names = Some extensions' →
       ∀ ext, ext ∈ extensions'
         ↔ ext ∈ extensions
           ∨ ∃ n config, n ∈ type_names
               ∧ PROJECT_TYPES !! Str.lower (Str.strip n) = Some config
               ∧ ext ∈ pt_extensions config)
  ∧ add_types extensions (Str.split "," (types +:+ ",")) = None.
Proof.
  split_and!; [apply add_types_None | intros extensions'; apply add_types_Some |].
  apply add_types_None. exists "". split; [|reflexivity].
  rewrite split_trailing. apply elem_of_app. right. by apply list_elem_of_singleton.
Qed.




(** ** Syntax tags *)

Lemma lower_char_dot (c : ascii) :
  Ascii.eqb (Str.lower_char c) "." = Ascii.eqb c ".".
Proof. destruct c as [[] [] [] [] [] [] [] []]; reflexivity. Qed.

Lemma rfind_from_lower (s : string) (i last : Z) :
  Str.rfind_from "." (Str.lower s) i last = Str.rfind_from "." s i last.
Proof.
  revert i last. induction s as [|c s IH]; intros i last; [done|].
  cbn [Str.lower Str.rfind_from]. by rewrite lower_char_dot, IH.
Qed.

Lemma length_lower (s : string) : String.length (Str.lower s) = String.length s.
Proof. induction s as [|c s IH]; [done|]. cbn [Str.lower String.length]. by rewrite IH. Qed.

Lemma slice_from_lower (n : nat) (s : string) :
  Str.slice_from n (Str.lower s) = Str.lower (Str.slice_from n s).
Proof.
  revert s. induction n as [|n IH]; intros s; [by destruct s|].
  destruct s as [|c s]; [done|]. cbn [Str.lower Str.slice_from]. apply IH.
Qed.

Lemma suffix_lower (nm : string) : suffix [Str.lower nm] = Str.lower (suffix [nm]).
Proof.
  unfold suffix. change (name [Str.lower nm]) with (Str.lower nm).
  change (name [nm]) with nm. cbv zeta. unfold Str.rfind.
  rewrite rfind_from_lower, length_lower.
  destruct (_ && _); [apply slice_from_lower | done].
Qed.

Lemma get_syntax_for_file_lower (p : Path) :
  get_syntax_for_file p = get_syntax_for_file [Str.lower (name p)].
Proof.
  unfold get_syntax_for_file.
  change (name [Str.lower (name p)]) with (Str.lower (name p)).
  rewrite suffix_lower, !lower_idem. by rewrite <- suffix_of_name.
Qed.

(** X17: the syntax tag of a file depends on its final name only, and
    not on the case of its letters: [Main.PY] below any directory is
    tagged like [main.py]. *)
Theorem get_syntax_for_file_ignores_case (p q : Path) :
  Str.lower (name p) = Str.lower (name q) →
  get_syntax_for_file p = get_syntax_for_file q.
Proof.
  intros H. by rewrite (get_syntax_for_file_lower p), (get_syntax_for_file_lower q), H.
Qed.

Lemma get_syntax_for_file_ignores_case_witness :
  get_syntax_for_file ["home"; "proj"; "src"; "Main.PY"] = get_syntax_for_file ["main.py"].
Proof.
  apply (get_syntax_for_file_ignores_case ["home"; "proj"; "src"; "Main.PY"] ["main.py"]).
  reflexivity.
Defined.

(** ** Anchors that collide *)

Lemma anchor_chars_app (a b : string) :
  anchor_chars (a +:+ b) = anchor_chars a +:+ anchor_chars b.
Proof.
  induction a as [|c a IH]; [done|]. rewrite app_String. cbn [anchor_chars].
  by rewrite IH, string_app_assoc.
Qed.

Lemma anchor_char_lower (c : ascii) : anchor_char (Str.lower_char c) = anchor_char c.
Proof. destruct c as [[] [] [] [] [] [] [] []]; reflexivity. Qed.

Lemma anchor_chars_lower (s : string) : anchor_chars (Str.lower s) = anchor_chars s.
Proof.
  induction s as [|c s IH]; [done|]. cbn [Str.lower anchor_chars].
  by rewrite anchor_char_lower, IH.
Qed.

Lemma anchor_chars_hyphen (s : string) :
  anchor_chars (Str.replace "_" "-" s) = anchor_chars s.
Proof.
  induction s as [|c s IH]; [done|]. cbn [Str.replace anchor_chars].
  destruct (Ascii.eqb_spec c "_") as [->|Hc].
  - rewrite anchor_chars_app, IH. reflexivity.
  - cbn [anchor_chars]. by rewrite IH.
Qed.

Lemma anchor_chars_join (rel : Path) :
  anchor_chars (Str.join "/" rel) = anchor_chars (Str.join "" rel).
Proof.
  induction rel as [|x rel IH]; [done|]. destruct rel as [|y rel]; [done|].
  cbn [Str.join] in *. rewrite !anchor_chars_app, IH. reflexivity.
Qed.

Lemma anchor_chars_join_ext (f : string → string) (rel : Path) :
  (∀ s, anchor_chars (f s) = anchor_chars s) →
  anchor_chars (Str.join "" (f <$> rel)) = anchor_chars (Str.join "" rel).
Proof.
  intros Hf. induction rel as [|x rel IH]; [done|].
  destruct rel as [|y rel]; [apply Hf|].
  rewrite !fmap_cons in *. cbn [Str.join] in *.
  by rewrite !anchor_chars_app, Hf, IH.
Qed.

(** X18: the anchor does not tell apart relative paths that differ only
    in where the separators fall, in [_] against [-], or, for names of
    ASCII characters, in the case of letters: [a/b.py] and [ab.py],
    [a_b.py] and [a-b.py], [A.py] and [a.py] get the same anchor. *)
Theorem anchor_collisions (rel : Path) (dir file : string) :
  rel ≠ [] →
  anchor (rel ++ [dir; file]) = anchor (rel ++ [dir +:+ file])
  ∧ anchor [dir; file] = anchor [dir +:+ file]
  ∧ (Forall (λ component, Str.isascii component = true) rel →
     anchor (Str.lower <$> rel) = anchor rel)
  ∧ anchor (Str.replace "_" "-" <$> rel) = anchor rel.
Proof.
  intros Hrel. rewrite !anchor_by_char.
  assert (Hflat : ∀ l, l ≠ [] →
            anchor_chars (str_path l) = anchor_chars (Str.join "" l)).
  { intros l Hl. rewrite str_path_nonempty by done. apply anchor_chars_join. }
  assert (Hjoin : ∀ l1 l2, Str.join "" (l1 ++ l2) = Str.join "" l1 +:+ Str.join "" l2).
  { intros l1 l2. induction l1 as [|x l1 IH]; [done|].
    destruct l1 as [|y l1].
    - destruct l2; [|reflexivity]. cbn [app Str.join].
      clear. induction x as [|c x IH]; [done|]. rewrite app_String. by f_equal.
    - change ((x :: y :: l1) ++ l2) with (x :: (y :: l1) ++ l2).
      change (Str.join "" (x :: (y :: l1) ++ l2))
        with (x +:+ "" +:+ Str.join "" ((y :: l1) ++ l2)).
      rewrite IH. change (Str.join "" (x :: y :: l1))
        with (x +:+ "" +:+ Str.join "" (y :: l1)).
      by rewrite !string_app_assoc. }
  rewrite !Hflat by (done || by destruct rel). split_and!.
  - rewrite !Hjoin. reflexivity.
  - reflexivity.
  - intros _. apply anchor_chars_join_ext, anchor_chars_lower.
  - apply anchor_chars_join_ext, anchor_chars_hyphen.
Qed.

Lemma anchor_collisions_witness :
  anchor (["Src"; "Main.py"] ++ ["a"; "b_c.py"])
  = anchor (["Src"; "Main.py"] ++ ["a" +:+ "b_c.py"])
  ∧ anchor (Str.lower <$> ["Src"; "Main.py"]) = anchor ["Src"; "Main.py"].
Proof.
  destruct (anchor_collisions ["Src"; "Main.py"] "a" "b_c.py") as (H1 & _ & H3 & _);
    [discriminate|].
  split; [exact H1|]. apply H3. by repeat constructor.
Defined.

(** ** What the tree can display *)

(** [entry_at listing rel e]: resolving the relative path [rel] in a
    directory with content [listing], through directories and symbolic
    links to directories, finds the entry [e]. *)
Inductive entry_at : list entry → Path → entry → Prop :=
| entry_here (listing : list entry) (e : entry) (n : string) :
    e ∈ listing → entry_name e = n → entry_at listing [n] e
| entry_below (listing : list entry) (e' : entry) (d : string) (rel : Path)
    (e : entry) :
    e' ∈ listing → is_dir e' = true → entry_name e' = d →
    entry_at (entry_listing e') rel e →
    entry_at listing (d :: rel) e.

Lemma tree_reach_entry_at (extensions : gset string) (excludes : list string)
    (base dir : Path) (listing : list entry) (rel : Path) :
  tree_reach extensions excludes base dir listing rel →
  ∃ e, entry_at listing rel e
       ∧ is_dir e = false
       ∧ (is_file e = true → Str.lower (suffix (dir ++ rel)) ∈ extensions).
Proof.
  induction 1 as [base dir listing e n Hin Hnd Hn Hex Hext
                 |base dir listing e d rel Hin Hd Hn Hex Hrel Hsub (e0 & Hat & Hnd & Hext)].
  - exists e. split_and!; [by constructor | done | done].
  - exists e0. split_and!; [by econstructor | done |].
    by rewrite <- app_assoc in Hext.
Qed.

(** X19: whatever the patterns and the prefix, every leaf of the tree
    is an entry that exists below the base path and is not a directory;
    if it is a regular file, its lower-cased suffix is in the extension
    set.  An entry that is neither a file nor a directory (a FIFO, a
    socket, a dangling symbolic link) is not put to that test. *)
Theorem tree_leaves_that_are_files_are_selected
    (extensions : gset string) (excludes : list string) (base_path : Path)
    (listing : list entry) (prefix : string) :
  ∃ nodes,
    generate_tree_nodes extensions excludes base_path listing prefix = Some nodes
    ∧ ∀ p, p ∈ tree_files nodes →
        ∃ rel e, p = base_path ++ rel
                 ∧ entry_at listing rel e
                 ∧ is_dir e = false
                 ∧ (is_file e = true → Str.lower (suffix p) ∈ extensions).
Proof.
  destruct (generate_tree_nodes_exact extensions excludes base_path listing prefix)
    as (nodes & Hnodes & Hleaves).
  exists nodes. split; [done|].
  intros p (rel & -> & Hreach)%Hleaves.
  destruct (tree_reach_entry_at _ _ _ _ _ _ Hreach) as (e & Hat & Hnd & Hext).
  by exists rel, e.
Qed.

(** ** Order of the displayed entries *)

Lemma tree_key_le_total (a b : bool * string) :
  tree_key_le a b = true ∨ tree_key_le b a = true.
Proof.
  unfold tree_key_le. destruct a as [[] x], b as [[] y]; simpl; auto using String.leb_total.
Qed.

Lemma tree_key_le_trans (a b c : bool * string) :
  tree_key_le a b = true → tree_key_le b c = true → tree_key_le a c = true.
Proof.
  unfold tree_key_le. destruct a as [[] x], b as [[] y], c as [[] z]; simpl;
    try done; apply string_leb_trans.
Qed.

(** The entries displayed directly below [dir]: the lines whose path has
    [dir] as its parent. *)
Definition children (dir : Path) (nodes : list node) : list node :=
  filter (λ n, parent (node_path n) = dir) nodes.

(** [n1] may stand above [n2] among the entries of one directory:
    directories come before files, and two directories, or two files,
    come with their lower-cased names in ascending order. *)
Definition listed_before (n1 n2 : node) : Prop :=
  (node_is_file n1 = true → node_is_file n2 = true)
  ∧ (node_is_file n1 = node_is_file n2 →
     String.leb (Str.lower (name (node_path n1)))
                (Str.lower (name (node_path n2))) = true).

Definition node_key (n : node) : bool * string :=
  (node_is_file n, Str.lower (name (node_path n))).

Lemma tree_key_le_listed_before (n1 n2 : node) :
  tree_key_le (node_key n1) (node_key n2) = true → listed_before n1 n2.
Proof.
  unfold tree_key_le, listed_before, node_key. simpl.
  destruct (node_is_file n1), (node_is_file n2); simpl; intros H; split; intros; done.
Qed.

Lemma parent_joinpath (dir : Path) (d : string) : parent (dir ++ [d]) = dir.
Proof. unfold parent. apply removelast_last. Qed.

Lemma parent_deeper (dir : Path) (d : string) (rel : Path) :
  rel ≠ [] → parent ((dir ++ [d]) ++ rel) ≠ dir.
Proof.
  intros Hrel Heq. unfold parent in Heq.
  rewrite <- app_assoc in Heq. rewrite removelast_app in Heq by done.
  rewrite <- (app_nil_r dir) in Heq at 2. apply app_inv_head in Heq.
  simpl in Heq. by destruct rel.
Qed.

Section TreeOrder.
Context (extensions : gset string) (excludes : list string).

Definition item_key (it : item) : bool * string :=
  (negb (is_dir (item_entry it)), Str.lower (name (item_path it))).

Definition item_le (a b : item) : Prop :=
  tree_key_le (item_key a) (item_key b) = true.

(** Every node lies strictly below the directory that is rendered. *)
Definition below_dir (dir : Path) (n : node) : Prop :=
  ∃ rel, node_path n = dir ++ rel ∧ rel ≠ [].

Definition renderer_deep (w : renderer) : Prop :=
  ∀ dir prefix nodes, w dir prefix = Some nodes → Forall (below_dir dir) nodes.

Definition item_deep (dir : Path) (it : item) : Prop :=
  item_path it = dir ++ [entry_name (item_entry it)]
  ∧ renderer_deep (item_tree it).

Lemma children_deeper (dir : Path) (d : string) (nodes : list node) :
  Forall (below_dir (dir ++ [d])) nodes → children dir nodes = [].
Proof.
  induction 1 as [|n nodes (rel & Hn & Hrel) _ IH]; [done|].
  unfold children in *. rewrite filter_cons_False; [done|].
  rewrite Hn. by apply parent_deeper.
Qed.

Lemma below_dir_deeper (dir : Path) (d : string) (n : node) :
  below_dir (dir ++ [d]) n → below_dir dir n.
Proof.
  intros (rel & Hn & _). exists (d :: rel). split; [|done].
  by rewrite Hn, <- app_assoc.
Qed.

Lemma filter_items_sorted (base : Path) (items filtered : list item) :
  filter_items extensions excludes base items = Some filtered →
  StronglySorted item_le items →
  StronglySorted item_le filtered ∧ filtered ⊆ items.
Proof.
  revert filtered. induction items as [|it rest IH]; intros filtered Hf Hs; simpl in Hf.
  - injection Hf as <-. done.
  - apply StronglySorted_inv in Hs as [Hrest Hit].
    destruct (should_exclude (item_path it) excludes base) as [x|]; [|done].
    simpl in Hf. destruct x.
    { destruct (IH _ Hf Hrest) as [H1 H2]. split; [done|]. by apply list_subseteq_cons. }
    destruct (is_file (item_entry it) && _).
    { destruct (IH _ Hf Hrest) as [H1 H2]. split; [done|]. by apply list_subseteq_cons. }
    destruct (filter_items extensions excludes base rest) as [f|] eqn:Hf'; [|done].
    simpl in Hf. injection Hf as <-.
    destruct (IH _ eq_refl Hrest) as [H1 H2]. split.
    + constructor; [done|]. apply Forall_forall. intros y Hy.
      rewrite Forall_forall in Hit. apply Hit, H2, Hy.
    + by apply list_subseteq_skip.
Qed.

Lemma render_items_children (base dir : Path) (prefix : string) (len i : nat)
    (items : list item) (nodes : list node) :
  Forall (item_deep dir) items →
  StronglySorted item_le items →
  render_items extensions excludes base prefix len i items = Some nodes →
  Forall (below_dir dir) nodes
  ∧ StronglySorted listed_before (children dir nodes)
  ∧ Forall (λ n, ∃ it, it ∈ items ∧ node_key n = item_key it) (children dir nodes).
Proof.
  intros Hdeep. revert i nodes.
  induction Hdeep as [|it items [Hpath Hit] _ IH]; intros i nodes Hs Hr.
  - injection Hr as <-. split_and!; constructor.
  - apply StronglySorted_inv in Hs as [Hrest Hle].
    assert (Hweaken : ∀ l : list node,
              Forall (λ n, ∃ it', it' ∈ items ∧ node_key n = item_key it') l →
              Forall (λ n, ∃ it', it' ∈ it :: items ∧ node_key n = item_key it') l).
    { intros l Hl. eapply Forall_impl; [exact Hl|]. intros n (it' & Hin & Hk).
      exists it'.
      split; [by apply list_elem_of_further | done]. }
    assert (Hfirst : ∀ n l,
              node_key n = item_key it →
              Forall (λ n, ∃ it', it' ∈ items ∧ node_key n = item_key it') l →
              Forall (listed_before n) l).
    { intros n l Hn Hl. eapply Forall_impl; [exact Hl|]. intros n' (it' & Hin & Hk).
      apply tree_key_le_listed_before. rewrite Hn, Hk.
      rewrite Forall_forall in Hle. by apply Hle. }
    cbn [render_items] in Hr. cbv zeta in Hr.
    destruct (is_dir (item_entry it)) eqn:Hd.
    + destruct (any_relevant _ _ _ _) as [b|]; [|done].
      cbn [mbind option_bind] in Hr. destruct b; cbn [negb] in Hr.
      * destruct (item_tree it _ _) as [below|] eqn:Hbelow; [|done].
        cbn [mbind option_bind] in Hr.
        destruct (render_items _ _ _ _ _ _ items) as [lines|] eqn:Hlines; [|done].
        cbn [mbind option_bind] in Hr. injection Hr as <-.
        destruct (IH _ _ Hrest Hlines) as (H1 & H2 & H3).
        apply Hit in Hbelow. rewrite Hpath in Hbelow.
        assert (Hch : children dir
                  ({| line := prefix +:+ (if Z.of_nat i =? Z.of_nat len - 1
                                          then "└── " else "├── ")
                              +:+ name (item_path it) +:+ "/";
                      node_path := item_path it; node_is_file := false |}
                   :: below ++ lines)
                = {| line := prefix +:+ (if Z.of_nat i =? Z.of_nat len - 1
                                         then "└── " else "├── ")
                             +:+ name (item_path it) +:+ "/";
                     node_path := item_path it; node_is_file := false |}
                  :: children dir lines).
        { unfold children. rewrite filter_cons_True.
          - rewrite filter_app. fold (children dir below).
            by rewrite (children_deeper _ _ _ Hbelow).
          - cbn [node_path]. rewrite Hpath. apply parent_joinpath. }
        rewrite Hch. split_and!.
        -- constructor.
           ++ exists [entry_name (item_entry it)]. by split.
           ++ apply Forall_app. split; [|done].
              eapply Forall_impl; [exact Hbelow|]. apply below_dir_deeper.
        -- constructor; [done|]. apply Hfirst; [|done].
           unfold node_key, item_key. cbn [node_is_file node_path]. by rewrite Hd.
        -- constructor; [|by apply Hweaken]. exists it.
           split; [apply list_elem_of_here|].
           unfold node_key, item_key. cbn [node_is_file node_path]. by rewrite Hd.
      * destruct (IH _ _ Hrest Hr) as (H1 & H2 & H3). split_and!; [done..|].
        by apply Hweaken.
    + destruct (render_items _ _ _ _ _ _ items) as [lines|] eqn:Hlines; [|done].
      cbn [mbind option_bind] in Hr. injection Hr as <-.
      destruct (IH _ _ Hrest Hlines) as (H1 & H2 & H3).
      unfold children. rewrite filter_cons_True
        by (cbn [node_path]; rewrite Hpath; apply parent_joinpath).
      fold (children dir lines). split_and!.
      -- constructor; [|done]. exists [entry_name (item_entry it)]. by split.
      -- constructor; [done|]. apply Hfirst; [|done].
         unfold node_key, item_key. cbn [node_is_file node_path]. by rewrite Hd.
      -- constructor; [|by apply Hweaken]. exists it.
         split; [apply list_elem_of_here|].
         unfold node_key, item_key. cbn [node_is_file node_path]. by rewrite Hd.
Qed.

Lemma generate_tree_body_children (dir : Path) (prefix : string)
    (iterdir : list item) (nodes : list node) :
  Forall (item_deep dir) iterdir →
  generate_tree_body extensions excludes dir prefix iterdir = Some nodes →
  Forall (below_dir dir) nodes
  ∧ StronglySorted listed_before (children dir nodes).
Proof.
  intros Hiter Hg. unfold generate_tree_body in Hg.
  set (decorate := λ p : item,
         ((negb (is_dir (item_entry p)), Str.lower (name (item_path p))), p)) in Hg.
  set (items := (sort_by tree_key_le (decorate <$> iterdir)).*2) in Hg.
  assert (Hperm : items ≡ₚ iterdir).
  { subst items. rewrite sort_by_Permutation, <- list_fmap_compose.
    by rewrite list_fmap_id. }
  assert (Hsorted : StronglySorted item_le items).
  { subst items.
    pose proof (sort_by_sorted tree_key_le tree_key_le_total tree_key_le_trans
                  (decorate <$> iterdir)) as Hs.
    assert (Hdec : Forall (λ x : (bool * string) * item, x.1 = item_key x.2)
                     (sort_by tree_key_le (decorate <$> iterdir))).
    { rewrite sort_by_Permutation, Forall_fmap. by apply Forall_forall. }
    revert Hs Hdec. generalize (sort_by tree_key_le (decorate <$> iterdir)).
    intros l Hs. induction Hs as [|x l Hl IH Hx]; intros Hdec; [constructor|].
    apply Forall_cons in Hdec as [Hx1 Hdec]. rewrite fmap_cons.
    constructor; [by apply IH|].
    rewrite Forall_fmap. rewrite Forall_forall in Hx, Hdec. apply Forall_forall.
    intros y Hy. specialize (Hx y Hy). specialize (Hdec y Hy).
    unfold key_le in Hx. unfold item_le. simpl. by rewrite <- Hx1, <- Hdec. }
  destruct (filter_items _ _ _ items) as [filtered|] eqn:Hf; [|done].
  cbn [mbind option_bind] in Hg.
  destruct (filter_items_sorted _ _ _ Hf Hsorted) as [Hfs Hsub].
  apply (render_items_children _ dir) in Hg as (H1 & H2 & _); [done| |done].
  apply Forall_forall. intros it Hin%Hsub. rewrite Hperm in Hin.
  rewrite Forall_forall in Hiter. by apply Hiter.
Qed.

Lemma tree_deep (e : entry) : renderer_deep (tree extensions excludes e).
Proof.
  induction e as [n|n listing IH|n listing IH|n] using entry_ind_nested;
    intros dir prefix nodes Hn; cbn [tree] in Hn.
  1, 4: injection Hn as <-; constructor.
  all: apply generate_tree_body_children in Hn as [H _]; [done|].
  all: rewrite Forall_fmap; eapply Forall_impl; [exact IH|]; intros c Hc; by split.
Qed.

End TreeOrder.

(** X20: among the entries that [generate_tree] displays directly below
    the directory it renders, directories stand above files, and
    directories as well as files stand in ascending order of their
    lower-cased names. *)
Theorem generate_tree_lists_directories_first
    (extensions : gset string) (excludes : list string) (base_path : Path)
    (listing : list entry) (prefix : string) :
  ∃ nodes,
    generate_tree_nodes extensions excludes base_path listing prefix = Some nodes
    ∧ StronglySorted listed_before (children base_path nodes).
Proof.
  destruct (generate_tree_nodes_exact extensions excludes base_path listing prefix)
    as (nodes & Hnodes & _).
  exists nodes. split; [done|]. unfold generate_tree_nodes in Hnodes.
  apply generate_tree_body_children in Hnodes as [_ H]; [done|].
  rewrite Forall_fmap. apply Forall_forall. intros c _. split; [done|].
  apply tree_deep.
Qed.

(** ** No file is collected twice *)

(** In a directory no two entries have the same name, here and in every
    directory below that [os.walk] walks into. *)
Fixpoint unique_names (e : entry) : bool :=
  match e with
  | Dir _ listing =>
      bool_decide (NoDup (entry_name <$> listing)) && forallb unique_names listing
  | File _ | Link _ _ | Other _ => true
  end.

Definition unique_listing (listing : list entry) : bool :=
  bool_decide (NoDup (entry_name <$> listing)) && forallb unique_names listing.

Section CollectorNoDup.
Context (base_path : Path) (extensions : gset string) (excludes : list string).

Definition strictly_below (root p : Path) : Prop :=
  ∃ rel, p = root ++ rel ∧ rel ≠ [].

(** A walk that appends no path twice, and only paths below the
    directory where it starts. *)
Definition walker_nodup (w : walker) : Prop :=
  ∀ root files, w root = Some files →
    NoDup files ∧ Forall (strictly_below root) files.

Lemma scan_files_sublist (root : Path) (filenames : list string) (files : list Path) :
  scan_files base_path extensions excludes root filenames = Some files →
  files `sublist_of` (joinpath root <$> filenames).
Proof.
  revert files. induction filenames as [|n rest IH]; intros files Hs; simpl in Hs.
  - by injection Hs as <-.
  - rewrite fmap_cons.
    destruct (should_exclude _ _ _) as [x|]; [|done]. simpl in Hs. destruct x.
    + apply sublist_cons, IH, Hs.
    + destruct (bool_decide _).
      * destruct (scan_files _ _ _ root rest) as [fs|] eqn:Hfs; [|done].
        simpl in Hs. injection Hs as <-. apply sublist_skip. by apply IH.
      * apply sublist_cons, IH, Hs.
Qed.

Lemma prune_dirs_sublist (root : Path) (dirs dirs' : list (string * walker)) :
  prune_dirs base_path excludes root dirs = Some dirs' →
  dirs' `sublist_of` dirs.
Proof.
  revert dirs'. induction dirs as [|d rest IH]; intros dirs' Hp; simpl in Hp.
  - by injection Hp as <-.
  - destruct (should_exclude _ _ _) as [x|]; [|done]. simpl in Hp.
    destruct (prune_dirs _ _ root rest) as [rest'|] eqn:Hrest; [|done].
    simpl in Hp. injection Hp as <-.
    destruct x; [apply sublist_cons | apply sublist_skip]; by apply IH.
Qed.

Lemma walk_below_nodup (root : Path) (dirs : list (string * walker))
    (below : list (list Path)) :
  Forall (λ d, walker_nodup d.2) dirs →
  NoDup dirs.*1 →
  mapM (λ d : string * walker, d.2 (joinpath root d.1)) dirs = Some below →
  NoDup (concat below)
  ∧ Forall (λ p, ∃ d rel, d ∈ dirs.*1 ∧ p = root ++ d :: rel ∧ rel ≠ [])
      (concat below).
Proof.
  intros Hd. revert below. induction Hd as [|d dirs Hw _ IH]; intros below Hnd Hm.
  - injection Hm as <-. split; constructor.
  - rewrite fmap_cons in Hnd. apply NoDup_cons in Hnd as [Hnotin Hnd].
    simpl in Hm.
    destruct (d.2 (joinpath root d.1)) as [fs|] eqn:Hfs; [|done]. simpl in Hm.
    destruct (mapM _ dirs) as [bs|] eqn:Hbs; [|done]. simpl in Hm.
    injection Hm as <-.
    destruct (IH _ Hnd eq_refl) as [H1 H2]. destruct (Hw _ _ Hfs) as [H3 H4].
    cbn [concat].
    assert (Hfs' : Forall (λ p, ∃ rel, p = root ++ d.1 :: rel ∧ rel ≠ []) fs).
    { eapply Forall_impl; [exact H4|]. intros p (rel & -> & Hrel). exists rel.
      unfold joinpath. by rewrite <- app_assoc. }
    split.
    + apply NoDup_app. split_and!; [done| |done]. intros p Hp Hp'.
      rewrite Forall_forall in Hfs', H2.
      destruct (Hfs' p Hp) as (rel & -> & _).
      destruct (H2 _ Hp') as (d' & rel' & Hin & Heq & _).
      apply app_inv_head in Heq. injection Heq as Heq _.
      rewrite <- Heq in Hin. done.
    + apply Forall_app. split.
      * eapply Forall_impl; [exact Hfs'|]. intros p (rel & -> & Hrel).
        exists d.1, rel. split_and!; [apply list_elem_of_here | done | done].
      * eapply Forall_impl; [exact H2|]. intros p (d' & rel & Hin & H).
        exists d', rel. split; [by apply list_elem_of_further | done].
Qed.

Lemma walk_step_nodup (items : list (entry * walker)) :
  Forall (λ it, walker_nodup it.2) items →
  NoDup ((λ it : entry * walker, entry_name it.1) <$> items) →
  walker_nodup (λ root_path, walk_step base_path extensions excludes root_path items).
Proof.
  intros Hitems Hnames root files Hw. unfold walk_step in Hw.
  set (dirs := (λ it : entry * walker, (entry_name it.1, it.2)) <$> filter _ items) in Hw.
  set (filenames := (λ it : entry * walker, entry_name it.1) <$> filter _ items) in Hw.
  destruct (prune_dirs _ _ root dirs) as [dirs'|] eqn:Hprune; [|done]. simpl in Hw.
  destruct (scan_files _ _ _ root filenames) as [fs|] eqn:Hscan; [|done]. simpl in Hw.
  destruct (mapM _ dirs') as [below|] eqn:Hbelow; [|done]. simpl in Hw.
  injection Hw as <-.
  apply prune_dirs_sublist in Hprune. apply scan_files_sublist in Hscan.
  assert (Hfn : NoDup filenames).
  { eapply sublist_NoDup; [exact Hnames|]. subst filenames.
    apply fmap_sublist, sublist_filter. }
  assert (Hdn : NoDup dirs'.*1).
  { eapply sublist_NoDup; [exact Hnames|].
    transitivity (dirs.*1); [by apply fmap_sublist|].
    subst dirs. rewrite <- list_fmap_compose. apply fmap_sublist, sublist_filter. }
  assert (Hdw : Forall (λ d : string * walker, walker_nodup d.2) dirs').
  { apply Forall_forall. intros d Hd. eapply elem_of_sublist in Hd; [|exact Hprune].
    subst dirs. apply list_elem_of_fmap in Hd as (it & -> & [_ Hit]%list_elem_of_filter).
    rewrite Forall_forall in Hitems. by apply Hitems. }
  destruct (walk_below_nodup root dirs' below Hdw Hdn Hbelow) as [H1 H2].
  assert (Hfs : Forall (λ p, ∃ n, p = root ++ [n]) fs).
  { apply Forall_forall. intros p Hp. eapply elem_of_sublist in Hp; [|exact Hscan].
    apply list_elem_of_fmap in Hp as (n & -> & _). by exists n. }
  split.
  - apply NoDup_app. split_and!; [|  |done].
    + eapply sublist_NoDup; [|exact Hscan].
      apply NoDup_fmap_2_strong; [|done].
      intros a b _ _ Heq. unfold joinpath in Heq. apply app_inv_head in Heq.
      by injection Heq.
    + intros p Hp Hp'. rewrite Forall_forall in Hfs, H2.
      destruct (Hfs p Hp) as (n & ->).
      destruct (H2 _ Hp') as (d & rel & _ & Heq & Hrel).
      apply app_inv_head in Heq. injection Heq as _ <-. done.
  - apply Forall_app. split.
    + eapply Forall_impl; [exact Hfs|]. intros p (n & ->). by exists [n].
    + eapply Forall_impl; [exact H2|]. intros p (d & rel & _ & -> & _).
      by exists (d :: rel).
Qed.

Lemma walk_nodup (e : entry) :
  unique_names e = true → walker_nodup (walk base_path extensions excludes e).
Proof.
  induction e as [n|n listing IH|n listing _|n] using entry_ind_nested;
    intros Hu; cbn [walk];
    try (intros root files [= <-]; split; constructor).
  cbn [unique_names] in Hu. apply andb_true_iff in Hu as [Hnd Hall].
  apply bool_decide_eq_true in Hnd. apply walk_step_nodup.
  - rewrite Forall_fmap. apply Forall_forall. intros c Hc. simpl.
    rewrite Forall_forall in IH. apply IH; [done|].
    rewrite forallb_forall in Hall. apply Hall. by apply list_elem_of_In.
  - by rewrite <- list_fmap_compose.
Qed.

End CollectorNoDup.

(** X21: when no directory holds two entries of the same name,
    [collect_files] returns no path twice. *)
Theorem collect_files_returns_no_path_twice
    (base_path : Path) (extensions : gset string) (excludes : list string)
    (listing : list entry) :
  unique_listing listing = true →
  ∃ files,
    collect_files base_path extensions excludes listing = Some files
    ∧ NoDup files.
Proof.
  intros Hu.
  destruct (collect_files_spec base_path extensions excludes listing)
    as (rels & Hfiles & _).
  exists ((base_path ++.) <$> rels). split; [done|].
  destruct (walk_step base_path extensions excludes base_path
              ((λ c, (c, walk base_path extensions excludes c)) <$> listing))
    as [files0|] eqn:Hwalk.
  - destruct (collect_files_Permutation _ _ _ _ _ Hwalk) as (files & Hfiles' & Hperm).
    assert (files = (base_path ++.) <$> rels) as -> by congruence.
    rewrite Hperm.
    apply (walk_nodup base_path extensions excludes (Dir "" listing) Hu _ _ Hwalk).
  - unfold collect_files in Hfiles. by rewrite Hwalk in Hfiles.
Qed.

Lemma collect_files_returns_no_path_twice_witness :
  ∃ files,
    collect_files proj docs_extensions DEFAULT_EXCLUDES proj_listing_egg = Some files
    ∧ NoDup files.
Proof.
  apply (collect_files_returns_no_path_twice proj docs_extensions DEFAULT_EXCLUDES
           proj_listing_egg).
  vm_compute. reflexivity.
Defined.
